(** * yt_enhancer: the batch-windowed timing-reconciliation pipeline

    A shallow embedding of [pkg/gemini/client.go] (CreateSubtitles,
    parseBatchResponse, cleanJsonContent, processSubtitles) and of the
    records of [pkg/models/models.go], with the properties of the
    subtitle pipeline stated over it.

    Conventions of the embedding.
    - A Go [int] is a [Z] in the 64-bit signed range; [+] and [-] of the
      source are [add64] and [sub64], which wrap around.
    - A Go [string] holding text is the list of its Unicode code points
      (the text handled here comes out of [json.Unmarshal], which yields
      valid UTF-8); the patterns searched for are ASCII, so a byte offset
      that is only used to cut the string is the offset counted in code
      points.
    - Slices are lists; [s[lo:hi]] and [s[i]] panic out of range as in Go.
    - The remote call is an oracle. Of debugMode the model keeps what
      reaches a returned value: the failure to create the debug
      directory; the debug dumps of processBatch only write files and
      print. *)

From Stdlib Require Import ZArith Lia Bool Ascii String.
From stdpp Require Import base tactics option list list_numbers gmap.

Local Open Scope Z_scope.

(** ** Go's [int] on a 64-bit platform *)

Module Int64.

Definition int_min : Z := - 2 ^ 63.
Definition int_max : Z := 2 ^ 63 - 1.

(** Two's-complement wrap-around of a mathematical integer. *)
Definition wrap (z : Z) : Z := (z + 2 ^ 63) mod 2 ^ 64 - 2 ^ 63.

Definition add64 (a b : Z) : Z := wrap (a + b).
Definition sub64 (a b : Z) : Z := wrap (a - b).

(** The values an [int] variable can hold. *)
Definition int64 (z : Z) : Prop := int_min <= z <= int_max.

End Int64.
Import Int64.

(** ** Text *)

Definition rune : Type := Z.
Definition gostring : Type := list rune.

(** An ASCII literal as a Go string. *)
Definition str (s : string) : gostring :=
  map (fun a => Z.of_nat (nat_of_ascii a)) (list_ascii_of_string s).

(** ** pkg/models *)

Record WordTiming := mkWordTiming {
  ID : Z;              (* json "id" *)
  Word : gostring;     (* json "word" *)
  StartTime : Z        (* json "start_ms" *)
}.

Record Subtitle := mkSubtitle {
  StartMs : Z;         (* json "start_ms" *)
  EndMs : Z;           (* json "end_ms" *)
  Text : gostring      (* json "text" *)
}.

Record SubtitleInput := mkSubtitleInput {
  StartWordIndex : Z;      (* json "st_id" *)
  inStartMs : Z;           (* json "st_ms", field StartMs *)
  LastWordStartMs : Z;     (* json "lw_ms" *)
  inText : gostring;       (* json "text", field Text *)
  Incomplete : bool        (* json "incomplete" *)
}.

(** Every [int] field holds a 64-bit value. *)
Definition input_int64 (c : SubtitleInput) : Prop :=
  int64 (StartWordIndex c) /\ int64 (inStartMs c) /\ int64 (LastWordStartMs c).

(** ** processSubtitles (client.go, lines 339-370) *)

(** The three assignments to [endMs] in the loop body, for the element
    [sub] at index [i] of [inputSubtitles]. *)
Definition endMs_tentative (sub : SubtitleInput) : Z :=
  if 0 <? LastWordStartMs sub then add64 (LastWordStartMs sub) 1500 else 0.

Definition endMs_next (inputSubtitles : list SubtitleInput) (i : nat) (endMs : Z) : Z :=
  if Z.of_nat i <? Z.of_nat (length inputSubtitles) - 1 then
    match inputSubtitles !! (i + 1)%nat with
    | Some next =>
        let nextStart := sub64 (inStartMs next) 100 in
        if (endMs =? 0) || (nextStart <? endMs) then nextStart else endMs
    | None => endMs (* index i+1 is in range under the guard *)
    end
  else endMs.

Definition endMs_minimum (sub : SubtitleInput) (endMs : Z) : Z :=
  if (endMs <=? inStartMs sub) || (sub64 endMs (inStartMs sub) <? 1000)
  then add64 (inStartMs sub) 1000
  else endMs.

Definition endMs_of (inputSubtitles : list SubtitleInput) (i : nat) (sub : SubtitleInput) : Z :=
  endMs_minimum sub (endMs_next inputSubtitles i (endMs_tentative sub)).

Definition processSubtitles (inputSubtitles : list SubtitleInput) : list Subtitle :=
  imap (fun i sub =>
          {| StartMs := inStartMs sub;
             EndMs := endMs_of inputSubtitles i sub;
             Text := inText sub |})
       inputSubtitles.

(** ** The [strings] functions used by cleanJsonContent *)

(** [unicode.IsSpace]: the code points with the White_Space property. *)
Definition isSpace (r : rune) : bool :=
  ((9 <=? r) && (r <=? 13)) || (r =? 32) || (r =? 133) || (r =? 160)
  || (r =? 5760) || ((8192 <=? r) && (r <=? 8202))
  || (r =? 8232) || (r =? 8233) || (r =? 8239) || (r =? 8287) || (r =? 12288).

Fixpoint trimLeftSpace (s : gostring) : gostring :=
  match s with
  | r :: s' => if isSpace r then trimLeftSpace s' else s
  | [] => []
  end.

(** [strings.TrimSpace]: leading and trailing white space removed. *)
Definition TrimSpace (s : gostring) : gostring :=
  rev (trimLeftSpace (rev (trimLeftSpace s))).

Fixpoint HasPrefix (s prefix : gostring) {struct prefix} : bool :=
  match prefix, s with
  | [], _ => true
  | _ :: _, [] => false
  | p :: prefix', c :: s' => (c =? p) && HasPrefix s' prefix'
  end.

Definition TrimPrefix (s prefix : gostring) : gostring :=
  if HasPrefix s prefix then drop (length prefix) s else s.

(** [strings.LastIndex]: where the last instance of [substr] starts, or -1. *)
Fixpoint LastIndex (s substr : gostring) : Z :=
  match s with
  | [] => match substr with [] => 0 | _ :: _ => -1 end
  | _ :: s' =>
      let later := LastIndex s' substr in
      if 0 <=? later then later + 1
      else if HasPrefix s substr then 0 else -1
  end.

(** A string with no white space at either end. *)
Definition trimmed (s : gostring) : Prop :=
  trimLeftSpace s = s /\ trimLeftSpace (rev s) = rev s.

(** Trailing white space removed (the second half of TrimSpace). *)
Definition trimRightSpace (s : gostring) : gostring :=
  rev (trimLeftSpace (rev s)).

(** No backquote (U+0060) in the text. *)
Definition no_backquote (s : gostring) : Prop := Forall (fun r => r <> 96) s.

(** ** cleanJsonContent (client.go, lines 322-336) *)

Definition fence_json : gostring := str "```json".
Definition fence : gostring := str "```".

Definition cleanJsonContent (jsonContent : gostring) : gostring :=
  let jsonContent := TrimSpace jsonContent in
  let jsonContent :=
    if HasPrefix jsonContent fence_json then
      let jsonContent := TrimPrefix jsonContent fence_json in
      let idx := LastIndex jsonContent fence in
      if negb (idx =? -1) then take (Z.to_nat idx) jsonContent else jsonContent
    else if HasPrefix jsonContent fence then
      let jsonContent := TrimPrefix jsonContent fence in
      let idx := LastIndex jsonContent fence in
      if negb (idx =? -1) then take (Z.to_nat idx) jsonContent else jsonContent
    else jsonContent in
  TrimSpace jsonContent.

(** ** parseBatchResponse (client.go, lines 285-319) *)

Inductive Error :=
| ErrRequest          (* marshalling, building, sending or reading the call failed *)
| ErrStatus (code : Z)  (* "API request failed with status ..." *)
| ErrParseResponse    (* "error parsing API response" *)
| ErrNoContent        (* "no content in the API response" *)
| ErrParseJSON        (* "failed to parse JSON response" *)
| ErrDebugDir.        (* "failed to create debug directory" *)

(** What a batch call comes to once the body is decoded (lines 286-306):
    an error, or the array [subtitleInputs]. *)
Inductive Reply :=
| ReplyError (e : Error)
| ReplyInputs (subtitleInputs : list SubtitleInput).

(** Lines 308-316. *)
Definition lastWordIndex_of (subtitleInputs : list SubtitleInput) (startIndex : Z) : Z :=
  if 0 <? Z.of_nat (length subtitleInputs) then
    match subtitleInputs !! (length subtitleInputs - 1)%nat with
    | Some lastSub => StartWordIndex lastSub
    | None => startIndex (* index len-1 is in range under the guard *)
    end
  else startIndex.

Definition parseBatchResponse (reply : Reply) (startIndex : Z)
  : Error + (list Subtitle * Z) :=
  match reply with
  | ReplyError e => inl e
  | ReplyInputs subtitleInputs =>
      inr (processSubtitles subtitleInputs, lastWordIndex_of subtitleInputs startIndex)
  end.

(** The Response structures of the API and the decoding of a body. *)
Record Part := mkPart { PartText : gostring }.
Record Candidate := mkCandidate { Parts : list Part }.
Record Response := mkResponse { Candidates : list Candidate }.

Section Decode.
(** [json.Unmarshal] into [[]models.SubtitleInput]; [None] is its error. *)
Variable unmarshalInputs : gostring -> option (list SubtitleInput).

(** Lines 286-306; [respBody] is [None] when the body is not the JSON
    of a [Response]. *)
Definition decodeBody (respBody : option Response) : Reply :=
  match respBody with
  | None => ReplyError ErrParseResponse
  | Some geminiResp =>
      match Candidates geminiResp with
      | [] => ReplyError ErrNoContent
      | c0 :: _ =>
          match Parts c0 with
          | [] => ReplyError ErrNoContent
          | p0 :: _ =>
              match unmarshalInputs (cleanJsonContent (PartText p0)) with
              | None => ReplyError ErrParseJSON
              | Some subtitleInputs => ReplyInputs subtitleInputs
              end
          end
      end
  end.

Definition parseBatchResponse_body (respBody : option Response) (startIndex : Z)
  : Error + (list Subtitle * Z) :=
  parseBatchResponse (decodeBody respBody) startIndex.
End Decode.

(** A body with one candidate holding one part of text. *)
Definition response_with (text : gostring) : Response :=
  {| Candidates := [ {| Parts := [ {| PartText := text |} ] |} ] |}.

(** ** CreateSubtitles (client.go, lines 54-115) *)

(** The remote service as seen by [processBatch]: what the call for batch
    number [batchNum], showing [batch] that starts at global index
    [startIndex], comes to. *)
Definition Service : Type := Z -> list WordTiming -> Z -> Reply.

(** processBatch (lines 119-229): the call, then parseBatchResponse on
    what came back. The debug blocks (lines 131-139, 190-198, 211-226)
    write files and print; a failure there is only printed, and nothing
    they do reaches the values returned. *)
Definition processBatch (service : Service) (batch allWords : list WordTiming)
    (startIndex batchNum : Z) : Error + (list Subtitle * Z) :=
  parseBatchResponse (service batchNum batch startIndex) startIndex.

(** [s[lo:hi]]; [None] is the run-time panic "slice bounds out of range". *)
Definition slice {A : Type} (s : list A) (lo hi : Z) : option (list A) :=
  if (0 <=? lo) && (lo <=? hi) && (hi <=? Z.of_nat (length s))
  then Some (take (Z.to_nat (hi - lo)) (drop (Z.to_nat lo) s))
  else None.

(** The line printed for every batch:
    "Processing batch %d: words %d to %d (total: %d)". *)
Record BatchLine := mkBatchLine {
  ln_batch : Z;   (* batchNum *)
  ln_first : Z;   (* startIndex *)
  ln_last : Z;    (* endIndex-1 *)
  ln_total : Z    (* len(currentBatch) *)
}.

(** The variables of the batch loop, and what it has printed. *)
Record LoopState := mkLoopState {
  allSubtitles : list Subtitle;
  startIndex : Z;
  batchNum : Z;
  printed : list BatchLine
}.

Definition batchSize : Z := 300.

Definition initState : LoopState :=
  {| allSubtitles := []; startIndex := 0; batchNum := 1; printed := [] |}.

Inductive Step :=
| Continue (st : LoopState)   (* the body ran to its end *)
| Break (st : LoopState)      (* the body left the loop by [break] *)
| Abort (e : Error)           (* [return nil, err] *)
| Panic.                      (* a run-time panic *)

(** One iteration of the loop body, lines 69-101. *)
Definition loopBody (service : Service) (wordTimings : list WordTiming)
    (st : LoopState) : Step :=
  let endIndex := add64 (startIndex st) batchSize in
  let endIndex :=
    if endIndex >? Z.of_nat (length wordTimings)
    then Z.of_nat (length wordTimings) else endIndex in
  match slice wordTimings (startIndex st) endIndex with
  | None => Panic
  | Some currentBatch =>
      let line := {| ln_batch := batchNum st; ln_first := startIndex st;
                     ln_last := sub64 endIndex 1;
                     ln_total := Z.of_nat (length currentBatch) |} in
      match processBatch service currentBatch wordTimings (startIndex st) (batchNum st) with
      | inl err => Abort err
      | inr (subtitles, lastWordIndex) =>
          let st' := {| allSubtitles := allSubtitles st ++ subtitles;
                        startIndex := lastWordIndex;
                        batchNum := add64 (batchNum st) 1;
                        printed := printed st ++ [line] |} in
          if Z.of_nat (length currentBatch) <? batchSize then Break st' else Continue st'
      end
  end.

Inductive Outcome (A : Type) :=
| Returned (a : A)
| Failed (e : Error)
| Panicked
| OutOfFuel.
Arguments Returned {A} a.
Arguments Failed {A} e.
Arguments Panicked {A}.
Arguments OutOfFuel {A}.

(** The loop of lines 68-102; [fuel] bounds the number of iterations a
    run of the model may take. *)
Fixpoint batchLoop (fuel : nat) (service : Service) (wordTimings : list WordTiming)
    (st : LoopState) : Outcome LoopState :=
  if startIndex st <? Z.of_nat (length wordTimings) then
    match fuel with
    | O => OutOfFuel
    | S fuel' =>
        match loopBody service wordTimings st with
        | Continue st' => batchLoop fuel' service wordTimings st'
        | Break st' => Returned st'
        | Abort e => Failed e
        | Panic => Panicked
        end
    end
  else Returned st.

(** What an iteration that ran to its end ([short = false]) or left by
    [break] ([short = true]) did. *)
Definition ran (service : Service) (wordTimings : list WordTiming)
    (st st' : LoopState) (short : bool) : Prop :=
  exists endIndex batch subtitleInputs,
    slice wordTimings (startIndex st) endIndex = Some batch /\
    service (batchNum st) batch (startIndex st) = ReplyInputs subtitleInputs /\
    (Z.of_nat (length batch) <? batchSize) = short /\
    st' = {| allSubtitles := allSubtitles st ++ processSubtitles subtitleInputs;
             startIndex := lastWordIndex_of subtitleInputs (startIndex st);
             batchNum := add64 (batchNum st) 1;
             printed := printed st ++
               [{| ln_batch := batchNum st; ln_first := startIndex st;
                   ln_last := sub64 endIndex 1;
                   ln_total := Z.of_nat (length batch) |}] |}.

Definition setEndMs (s : Subtitle) (endMs : Z) : Subtitle :=
  {| StartMs := StartMs s; EndMs := endMs; Text := Text s |}.

(** The post-processing loop of lines 106-111, from index [i] on; the
    slice is updated in place. *)
Fixpoint fixLoop (fuel : nat) (i : nat) (allSubtitles : list Subtitle) : list Subtitle :=
  match fuel with
  | O => allSubtitles
  | S fuel' =>
      if Z.of_nat i <? Z.of_nat (length allSubtitles) then
        match allSubtitles !! (i - 1)%nat, allSubtitles !! i with
        | Some prev, Some cur =>
            let allSubtitles :=
              if EndMs prev >? StartMs cur
              then <[(i - 1)%nat := setEndMs prev (sub64 (StartMs cur) 100)]> allSubtitles
              else allSubtitles in
            fixLoop fuel' (S i) allSubtitles
        | _, _ => allSubtitles (* both indices are in range for 1 <= i < len *)
        end
      else allSubtitles
  end.

(** Lines 104-112; the loop runs at most [len] times. *)
Definition fixTransitions (allSubtitles : list Subtitle) : list Subtitle :=
  if 1 <? Z.of_nat (length allSubtitles)
  then fixLoop (length allSubtitles) 1 allSubtitles
  else allSubtitles.

(** The fields of [Client] (lines 19-24) that decide what CreateSubtitles
    returns, and what [os.MkdirAll] comes to. *)
Record Client := mkClient {
  debugMode : bool;
  debugDir : gostring
}.

Inductive OsResult := OsOk | OsError.

(** Lines 55-60, "Create debug directory if it doesn't exist": the error
    the block returns, if any. *)
Definition ensureDebugDir (c : Client) (MkdirAll : gostring -> OsResult) : option Error :=
  if debugMode c && negb (Z.of_nat (length (debugDir c)) =? 0) then
    match MkdirAll (debugDir c) with
    | OsError => Some ErrDebugDir
    | OsOk => None
    end
  else None.

Definition CreateSubtitles (c : Client) (MkdirAll : gostring -> OsResult) (fuel : nat)
    (service : Service) (wordTimings : list WordTiming) : Outcome (list Subtitle) :=
  match ensureDebugDir c MkdirAll with
  | Some err => Failed err
  | None =>
      match batchLoop fuel service wordTimings initState with
      | Returned st => Returned (fixTransitions (allSubtitles st))
      | Failed e => Failed e
      | Panicked => Panicked
      | OutOfFuel => OutOfFuel
      end
  end.

(** The run terminates: some number of iterations is enough. *)
Definition terminates (c : Client) (MkdirAll : gostring -> OsResult)
    (service : Service) (wordTimings : list WordTiming) : Prop :=
  exists fuel, CreateSubtitles c MkdirAll fuel service wordTimings <> OutOfFuel.

(** ** The Timing Reconciler as the specification words it (section 4.4)

    The three steps, over a given addition and subtraction: the
    mathematical ones, or those of the machine. *)

Module Spec.
Section Arith.
Variables plus minus : Z -> Z -> Z.

(** Step 1: [last_word_ms + 1500] when [last_word_ms > 0], else 0. *)
Definition tentative_end (c : SubtitleInput) : Z :=
  if 0 <? LastWordStartMs c then plus (LastWordStartMs c) 1500 else 0.

(** A tentative end of 0 stands for "no end yet": infinity. *)
Definition or_infinity (e : Z) : option Z :=
  if e =? 0 then None else Some e.

Definition min_with_infinity (a : option Z) (b : Z) : Z :=
  match a with
  | None => b
  | Some a => Z.min a b
  end.

(** Step 2: with a following candidate, the minimum of the tentative
    end (or infinity) and [next.start_ms - 100]. *)
Definition clamp_to_next (e : Z) (next : option SubtitleInput) : Z :=
  match next with
  | Some n => min_with_infinity (or_infinity e) (minus (inStartMs n) 100)
  | None => e
  end.

(** Step 3: an end at or before the start, or a span under 1000 ms,
    becomes [start_ms + 1000]. *)
Definition force_minimum (start_ms e : Z) : Z :=
  if (e <=? start_ms) || (minus e start_ms <? 1000) then plus start_ms 1000 else e.

Fixpoint reconcile (cands : list SubtitleInput) : list Subtitle :=
  match cands with
  | [] => []
  | c :: rest =>
      {| StartMs := inStartMs c;
         EndMs := force_minimum (inStartMs c)
                    (clamp_to_next (tentative_end c) (head rest));
         Text := inText c |} :: reconcile rest
  end.
End Arith.
End Spec.

(** Timestamps on which no operation of the reconciler or of the
    assembler overflows: magnitude at most [2^62 - 1500] ms. *)
Definition ms_limit : Z := 2 ^ 62 - 1500.
Definition in_ms_range (x : Z) : Prop := - ms_limit <= x <= ms_limit.
Definition input_in_ms_range (c : SubtitleInput) : Prop :=
  in_ms_range (inStartMs c) /\ in_ms_range (LastWordStartMs c).

(** ** Which word ids a run covers *)

(** The ids [lo], ..., [hi - 1]. *)
Definition ids (lo hi : Z) : list Z := seqZ lo (hi - lo).

(** The ids covered by the subtitles of one batch: a subtitle runs from
    its own [st_id] up to the [st_id] of the next subtitle of the batch,
    the last one up to the end of the batch. *)
Fixpoint subtitle_ids (starts : list Z) (batchEnd : Z) : list Z :=
  match starts with
  | [] => []
  | a :: rest =>
      match rest with
      | [] => ids a batchEnd
      | b :: _ => ids a b
      end ++ subtitle_ids rest batchEnd
  end.

(** The batch a printed line stands for, and what the service answered. *)
Definition line_batch (wordTimings : list WordTiming) (ln : BatchLine) : list WordTiming :=
  default [] (slice wordTimings (ln_first ln) (ln_last ln + 1)).

Definition line_inputs (service : Service) (wordTimings : list WordTiming)
    (ln : BatchLine) : list SubtitleInput :=
  match service (ln_batch ln) (line_batch wordTimings ln) (ln_first ln) with
  | ReplyInputs subtitleInputs => subtitleInputs
  | ReplyError _ => []
  end.

(** The ids covered by the subtitles emitted for one batch, and for all. *)
Definition line_ids (service : Service) (wordTimings : list WordTiming)
    (ln : BatchLine) : list Z :=
  subtitle_ids (map StartWordIndex (line_inputs service wordTimings ln)) (ln_last ln + 1).

Definition emitted_ids (service : Service) (wordTimings : list WordTiming)
    (lines : list BatchLine) : list Z :=
  concat (map (line_ids service wordTimings) lines).

(** The [st_id] values of an answer do not decrease. *)
Fixpoint ascending (starts : list Z) : bool :=
  match starts with
  | [] => true
  | a :: rest =>
      match rest with
      | [] => true
      | b :: _ => (a <=? b) && ascending rest
      end
  end.

(** An answer that follows the batch it was given: it has a candidate,
    its [st_id] values begin at the start index of the batch, do not
    decrease, and the last one (the next start index) does not pass the
    end of the batch. The code checks none of this. *)
Definition follows_batch (startIndex : Z) (batch : list WordTiming)
    (subtitleInputs : list SubtitleInput) : bool :=
  match map StartWordIndex subtitleInputs with
  | [] => false
  | first :: rest =>
      (first =? startIndex) && ascending (first :: rest)
      && (lastWordIndex_of subtitleInputs startIndex
          <=? startIndex + Z.of_nat (length batch))
  end.

(** The ids consumed by the subtitles of a batch that another batch
    continues: its trailing subtitle is left out, since the next batch
    starts again at the [st_id] of that subtitle. *)
Definition leading_ids (service : Service) (wordTimings : list WordTiming)
    (ln : BatchLine) : list Z :=
  subtitle_ids (removelast (map StartWordIndex (line_inputs service wordTimings ln)))
               (lastWordIndex_of (line_inputs service wordTimings ln) (ln_first ln)).

(** The ids consumed over a run, following the continuation: every batch
    but the last without its trailing subtitle, the last batch whole. *)
Fixpoint continued_ids (service : Service) (wordTimings : list WordTiming)
    (lines : list BatchLine) : list Z :=
  match lines with
  | [] => []
  | ln :: rest =>
      match rest with
      | [] => line_ids service wordTimings ln
      | _ :: _ => leading_ids service wordTimings ln
      end ++ continued_ids service wordTimings rest
  end.

(** What the loop keeps true of the lines it has printed, from the start
    index [first] of the first of them to the start index [next] it has
    reached: every line stands for a slice of the words and an answer of
    the service, and the next line starts at the last [st_id] of that
    answer. *)
Fixpoint chained (service : Service) (wordTimings : list WordTiming)
    (first : Z) (lines : list BatchLine) (next : Z) : Prop :=
  match lines with
  | [] => next = first
  | ln :: rest =>
      ln_first ln = first /\
      exists batch subtitleInputs,
        slice wordTimings (ln_first ln) (ln_last ln + 1) = Some batch /\
        service (ln_batch ln) batch (ln_first ln) = ReplyInputs subtitleInputs /\
        chained service wordTimings (lastWordIndex_of subtitleInputs (ln_first ln)) rest next
  end.

(** ** Inputs used in examples *)

(** A client without debug mode and one with it; a file system in which
    the debug directory can be created, and one in which it cannot. *)
Definition client_plain : Client := {| debugMode := false; debugDir := [] |}.
Definition client_debug : Client := {| debugMode := true; debugDir := str "debug" |}.
Definition mkdir_ok : gostring -> OsResult := fun _ => OsOk.
Definition mkdir_denied : gostring -> OsResult := fun _ => OsError.

Definition word (i : Z) : WordTiming :=
  {| ID := i; Word := str "w"; StartTime := 100 * i |}.

(** [n] words with ids 0, ..., n-1. *)
Definition words (n : Z) : list WordTiming := word <$> seqZ 0 n.

Definition cand (st_id st_ms lw_ms : Z) : SubtitleInput :=
  {| StartWordIndex := st_id; inStartMs := st_ms; LastWordStartMs := lw_ms;
     inText := str "t"; Incomplete := false |}.

(** A service that finds no sentence in any batch: the body is "[]". *)
Definition service_empty : Service := fun _ _ _ => ReplyInputs [].

(** A service that makes one subtitle of each batch, starting at the
    first word it was shown. *)
Definition service_one_block : Service :=
  fun _ _ startIndex => ReplyInputs [cand startIndex (100 * startIndex) 0].

(** A service that makes one subtitle of each batch and declares the end
    of the batch as its stopping point. *)
Definition service_whole_batch : Service :=
  fun _ batch startIndex =>
    ReplyInputs [cand (startIndex + Z.of_nat (length batch)) (100 * startIndex) 0].

(** The scenario of 310 words: the first answer ends with [st_id = 295],
    the second batch has the 15 words from 295 on. *)
Definition service_310 : Service :=
  fun batchNum _ _ =>
    if batchNum =? 1 then ReplyInputs [cand 0 0 29000; cand 295 29500 29900]
    else ReplyInputs [cand 295 29500 30900].

(** A service that declares a stopping point far beyond the batch it
    was shown. *)
Definition service_far_ahead : Service :=
  fun _ _ startIndex => ReplyInputs [cand (startIndex + 5000) (100 * startIndex) 0].

(** Two candidates that start 50 ms apart. *)
Definition service_close_starts : Service :=
  fun _ _ _ => ReplyInputs [cand 0 1000 0; cand 1 1050 0].

(** A candidate that starts within 1000 ms of the largest [int]:
    [st_ms + 1000] is no 64-bit value. *)
Definition service_late_start : Service :=
  fun _ _ _ => ReplyInputs [cand 0 9223372036854775307 0].

(** A second candidate that starts within 100 ms of the least [int]:
    [st_ms - 100] is no 64-bit value. *)
Definition service_early_start : Service :=
  fun _ _ _ => ReplyInputs [cand 0 5000 0; cand 1 (-9223372036854775758) 0].

(** ** The post-processing pass, by recursion on the track

    What lines 104-112 come to: every subtitle is compared with the one
    after it, whose start the pass never changes. *)

Definition clampEnd (prev : Subtitle) (next : option Subtitle) : Subtitle :=
  match next with
  | Some cur =>
      if EndMs prev >? StartMs cur then setEndMs prev (sub64 (StartMs cur) 100) else prev
  | None => prev
  end.

Fixpoint clampEnds (track : list Subtitle) : list Subtitle :=
  match track with
  | [] => []
  | prev :: rest => clampEnd prev (head rest) :: clampEnds rest
  end.

(** Start times for which neither [start_ms - 100] nor [start_ms + 1000]
    leaves the 64-bit range. *)
Definition start_in_bounds (s : Subtitle) : Prop :=
  int_min + 100 <= StartMs s <= int_max - 1000.

(** ** pkg/models: the timed-text document (models.go, lines 5-29)

    The fields [Time] and [Text] exist in two structs; the projections
    carry the struct's initial. *)

Record Sentence := mkSentence {
  sTime : gostring;   (* xml attribute "t" *)
  sAc : gostring;     (* xml attribute "ac" *)
  sText : gostring    (* character data *)
}.

Record Paragraph := mkParagraph {
  pTime : gostring;       (* xml attribute "t" *)
  pDuration : gostring;   (* xml attribute "d" *)
  pA : gostring;          (* xml attribute "a" *)
  pW : gostring;          (* xml attribute "w" *)
  pContent : gostring;    (* character data *)
  Sentences : list Sentence
}.

Record Body := mkBody { Paragraphs : list Paragraph }.

Record TimedText := mkTimedText { tBody : Body }.

(** ** strconv.Atoi

    The value and the error of [strconv.Atoi] (through [ParseInt] and
    [ParseUint] in base 10 and 64 bits; the fast path of Atoi for short
    strings computes the same). A digit that would overflow ends the scan
    with a range error, a character that is no digit with a syntax error,
    whichever comes first. *)

Inductive NumError := ErrSyntax | ErrRange.

Definition isDigit (c : rune) : bool := (48 <=? c) && (c <=? 57).

Definition maxUint64 : Z := 2 ^ 64 - 1.

(** The digits of [s] read after the value [n]. *)
Fixpoint parseUintFrom (s : gostring) (n : Z) : Z * option NumError :=
  match s with
  | [] => (n, None)
  | c :: s' =>
      if isDigit c then
        if n >=? maxUint64 / 10 + 1 then (maxUint64, Some ErrRange)
        else
          let n1 := n * 10 + (c - 48) in
          if n1 >? maxUint64 then (maxUint64, Some ErrRange)
          else parseUintFrom s' n1
      else (0, Some ErrSyntax)
  end.

Definition ParseUint (s : gostring) : Z * option NumError :=
  match s with
  | [] => (0, Some ErrSyntax)
  | _ :: _ => parseUintFrom s 0
  end.

Definition ParseInt (s : gostring) : Z * option NumError :=
  match s with
  | [] => (0, Some ErrSyntax)
  | c :: s' =>
      let neg := c =? 45 in
      let s1 := if (c =? 43) || (c =? 45) then s' else s in
      match ParseUint s1 with
      | (_, Some ErrSyntax) => (0, Some ErrSyntax)
      | (un, _) =>
          let cutoff := 2 ^ 63 in
          if negb neg && (un >=? cutoff) then (cutoff - 1, Some ErrRange)
          else if neg && (un >? cutoff) then (- cutoff, Some ErrRange)
          else (if neg then - un else un, None)
      end
  end.

Definition Atoi (s : gostring) : Z * option NumError := ParseInt s.

(** A decimal numeral: the characters of a list of digits, and its value. *)
Definition numeral (ds : list Z) : gostring := (fun d => 48 + d) <$> ds.
Definition numeral_value (ds : list Z) : Z := fold_left (fun n d => n * 10 + d) ds 0.
Definition digits (ds : list Z) : Prop := ds <> [] /\ Forall (fun d => 0 <= d <= 9) ds.

(** A text that is no number at its first character: empty, or starting
    with something that is neither a digit nor a sign. *)
Definition not_a_number (s : gostring) : Prop :=
  match s with
  | [] => True
  | c :: _ => isDigit c = false /\ c <> 43 /\ c <> 45
  end.

(** ** ExtractWordTimings (pkg/parser) *)

(** The body of the inner loop: the slice and [wordID] before and after
    one sentence of a paragraph whose time is [paragraphTime]. *)
Definition extractSentence (paragraphTime : Z) (acc : list WordTiming * Z)
    (sentence : Sentence) : list WordTiming * Z :=
  let '(wordTimings, wordID) := acc in
  let sentenceTime := fst (Atoi (sTime sentence)) in
  let startTime := add64 paragraphTime sentenceTime in
  match TrimSpace (sText sentence) with
  | [] => (wordTimings, wordID)   (* continue *)
  | _ :: _ =>
      (wordTimings ++ [{| ID := wordID;
                          Word := TrimSpace (sText sentence);
                          StartTime := startTime |}],
       add64 wordID 1)
  end.

(** The body of the outer loop. *)
Definition extractParagraph (acc : list WordTiming * Z) (paragraph : Paragraph)
    : list WordTiming * Z :=
  if Z.of_nat (length (Sentences paragraph)) =? 0 then acc   (* continue *)
  else
    let paragraphTime := fst (Atoi (pTime paragraph)) in
    fold_left (extractSentence paragraphTime) (Sentences paragraph) acc.

Definition ExtractWordTimings (timedText : TimedText) : list WordTiming :=
  fst (fold_left extractParagraph (Paragraphs (tBody timedText)) ([], 0)).

(** What one fragment contributes: its trimmed text and its absolute
    start, or nothing when the text is blank. *)
Definition fragment (paragraph : Paragraph) (sentence : Sentence) : option (gostring * Z) :=
  match TrimSpace (sText sentence) with
  | [] => None
  | _ :: _ =>
      Some (TrimSpace (sText sentence),
            add64 (fst (Atoi (pTime paragraph))) (fst (Atoi (sTime sentence))))
  end.

Definition fragments (timedText : TimedText) : list (gostring * Z) :=
  concat (map (fun p => omap (fragment p) (Sentences p)) (Paragraphs (tBody timedText))).

(** A document for examples: a paragraph at 1000 with three fragments
    (the last one blank), a paragraph without fragments, and a paragraph
    whose time is no number. *)
Definition document : TimedText :=
  {| tBody := {| Paragraphs :=
       [ mkParagraph (str "1000") (str "") (str "") (str "") (str "")
           [ mkSentence (str "0") (str "") (str "Hello");
             mkSentence (str "500") (str "") (str " world ");
             mkSentence (str "900") (str "") (str "  ") ];
         mkParagraph (str "2000") (str "") (str "") (str "") (str "") [];
         mkParagraph (str "soon") (str "") (str "") (str "") (str "")
           [ mkSentence (str "3000") (str "") (str "again") ] ] |} |}.

(** ** More of the [strings] package

    [Split], [SplitN] and [Join] are used with a separator of one ASCII
    character, given here as that character. *)

(** [strings.Split(s, sep)]: the pieces of [s] between the separators;
    always at least one piece. *)
Fixpoint Split (s : gostring) (sep : rune) : list gostring :=
  match s with
  | [] => [[]]
  | c :: s' =>
      if c =? sep then [] :: Split s' sep
      else match Split s' sep with
           | piece :: pieces => (c :: piece) :: pieces
           | [] => [[c]]
           end
  end.

(** [strings.SplitN(s, sep, 2)]: cut at the first separator, if any. *)
Fixpoint SplitN2 (s : gostring) (sep : rune) : list gostring :=
  match s with
  | [] => [[]]
  | c :: s' =>
      if c =? sep then [[]; s']
      else match SplitN2 s' sep with
           | [piece; rest] => [c :: piece; rest]
           | _ => [s]
           end
  end.

(** [strings.Join(elems, sep)]. *)
Fixpoint Join (elems : list gostring) (sep : rune) : gostring :=
  match elems with
  | [] => []
  | [e] => e
  | e :: rest => e ++ sep :: Join rest sep
  end.

(** [strings.Contains(s, substr)]. *)
Fixpoint Contains (s substr : gostring) : bool :=
  HasPrefix s substr ||
  match s with
  | [] => false
  | _ :: s' => Contains s' substr
  end.

Definition HasSuffix (s suffix : gostring) : bool :=
  HasPrefix (rev s) (rev suffix).

Definition TrimSuffix (s suffix : gostring) : gostring :=
  if HasSuffix s suffix then take (length s - length suffix) s else s.

(** ** ParseXMLFile (pkg/parser) *)

(** The loop that looks for the first line with the marker: the lines
    after that line, when there is one. *)
Fixpoint linesAfterComment (lines : list gostring) : option (list gostring) :=
  match lines with
  | [] => None
  | line :: rest =>
      if Contains line (str "// filepath:") then Some rest
      else linesAfterComment rest
  end.

(** "Remove the filepath comment line if present". *)
Definition removeFilepathComment (xmlContent : gostring) : gostring :=
  let lines := Split xmlContent 10 in
  match linesAfterComment lines with
  | Some rest => Join rest 10
  | None => xmlContent
  end.

Inductive ParseError :=
| ErrReadFile    (* "error reading file" *)
| ErrParseXML.   (* "error parsing XML" *)

Section XML.
(** [xml.Unmarshal] into [models.TimedText]; [None] is its error. *)
Variable xmlUnmarshal : gostring -> option TimedText.

(** [file] is what [os.ReadFile] gives: the content, or [None] for its
    error. *)
Definition ParseXMLFile (file : option gostring) : ParseError + TimedText :=
  match file with
  | None => inl ErrReadFile
  | Some xmlData =>
      match xmlUnmarshal (removeFilepathComment xmlData) with
      | None => inl ErrParseXML
      | Some timedText => inr timedText
      end
  end.
End XML.

(** A line: a text without a line feed. *)
Definition is_line (l : gostring) : Prop := Forall (fun c => c <> 10) l.

(** ** The paths of the commands (cmd/convert_srt and cmd/yt_enhancer, run) *)

Section ToLower.
(** [unicode.ToLower], the case mapping of the Unicode tables. *)
Variable unicodeToLower : rune -> rune.

(** [strings.ToLower]: every code point mapped. *)
Definition ToLower (s : gostring) : gostring := unicodeToLower <$> s.

(** convert_srt, "Validate file extension": the input is refused unless
    this holds. *)
Definition hasSrv3Extension (inputPath : gostring) : bool :=
  HasSuffix (ToLower inputPath) (str ".srv3").
End ToLower.

(** The SRT path made from the input path (both commands). *)
Definition srtPathFor (inputPath : gostring) : gostring :=
  TrimSuffix inputPath (str ".srv3") ++ str ".srt".

(** convert_srt, "Determine output path": the value of the flag [-o], or
    the path made from the input when the flag is empty. *)
Definition outputPathOf (outputFile inputPath : gostring) : gostring :=
  match outputFile with
  | [] => srtPathFor inputPath
  | _ :: _ => outputFile
  end.

(** The case mapping on ASCII letters (what [unicode.ToLower] does there). *)
Definition asciiToLower (c : rune) : rune :=
  if (65 <=? c) && (c <=? 90) then c + 32 else c.

(** ** The process environment ([os.Getenv], [os.Setenv])

    A finite map from names to values; a name that is not set reads as
    the empty string. [Setenv] refuses (EINVAL) an empty name, a name
    with '=' or NUL in it, and a value with NUL in it. *)

Definition Getenv (env : gmap (list Z) (list Z)) (key : gostring) : gostring :=
  default [] (env !! key).

Definition validEnvKey (key : gostring) : bool :=
  negb (Z.of_nat (length key) =? 0)
  && forallb (fun c => negb ((c =? 61) || (c =? 0))) key.

Definition validEnvValue (value : gostring) : bool :=
  forallb (fun c => negb (c =? 0)) value.

(** [None] is the error of [os.Setenv]. *)
Definition Setenv (env : gmap (list Z) (list Z)) (key value : gostring)
    : option (gmap (list Z) (list Z)) :=
  if validEnvKey key && validEnvValue value then Some (<[key := value]> env) else None.

(** ** LoadEnvFile (pkg/config) *)

(** What [os.ReadFile] gives. *)
Inductive ReadResult :=
| NotExist                  (* an error for which os.IsNotExist holds *)
| ReadFailed                (* any other error *)
| Data (data : gostring).

(** "Remove quotes if present". *)
Definition unquote (value : gostring) : gostring :=
  if 1 <? Z.of_nat (length value) then
    match value !! 0%nat, value !! (length value - 1)%nat with
    | Some first, Some final =>
        if ((first =? 34) || (first =? 39)) && (first =? final)
        then drop 1 (take (length value - 1) value)
        else value
    | _, _ => value (* both indices are in range for len > 1 *)
    end
  else value.

(** The body of the loop over the lines; the error of Setenv is dropped. *)
Definition loadEnvLine (env : gmap (list Z) (list Z)) (line : gostring)
    : gmap (list Z) (list Z) :=
  let line := TrimSpace line in
  if (Z.of_nat (length line) =? 0) || HasPrefix line (str "#") then env
  else
    match SplitN2 line 61 with
    | [k; v] =>
        let key := TrimSpace k in
        let value := unquote (TrimSpace v) in
        match Getenv env key with
        | [] => default env (Setenv env key value)
        | _ :: _ => env
        end
    | _ => env (* len(parts) != 2 *)
    end.

(** The environment after the call, and whether it returned an error. *)
Definition LoadEnvFile (env : gmap (list Z) (list Z)) (file : ReadResult)
    : gmap (list Z) (list Z) * bool :=
  match file with
  | NotExist => (env, false)
  | ReadFailed => (env, true)
  | Data data => (fold_left loadEnvLine (Split data 10) env, false)
  end.

(** ** Load (pkg/config) *)

Section Config.
(** [float64], [strconv.ParseFloat(_, 64)] ([None] is its error) and the
    constant 0.3. *)
Variable float : Type.
Variable ParseFloat : gostring -> option float.
Variable temperature_default : float.

Record Config := mkConfig {
  GeminiAPIKey : gostring;
  GeminiModel : gostring;
  GeminiTemperature : float;
  GeminiMaxTokens : Z;
  DebugMode : bool;
  DebugDir : gostring
}.

(** [None] is the error "GEMINI_API_KEY environment variable not set". *)
Definition Load (env : gmap (list Z) (list Z)) : option Config :=
  match Getenv env (str "GEMINI_API_KEY") with
  | [] => None
  | _ :: _ =>
      let cfg := {| GeminiAPIKey := Getenv env (str "GEMINI_API_KEY");
                    GeminiModel := str "gemini-1.5-flash";
                    GeminiTemperature := temperature_default;
                    GeminiMaxTokens := 8192;
                    DebugMode := false;
                    DebugDir := [] |} in
      let cfg :=
        match Getenv env (str "GEMINI_MODEL") with
        | [] => cfg
        | _ :: _ =>
            {| GeminiAPIKey := GeminiAPIKey cfg;
               GeminiModel := Getenv env (str "GEMINI_MODEL");
               GeminiTemperature := GeminiTemperature cfg;
               GeminiMaxTokens := GeminiMaxTokens cfg;
               DebugMode := DebugMode cfg; DebugDir := DebugDir cfg |}
        end in
      let cfg :=
        match Getenv env (str "GEMINI_TEMPERATURE") with
        | [] => cfg
        | _ :: _ =>
            match ParseFloat (Getenv env (str "GEMINI_TEMPERATURE")) with
            | Some t =>
                {| GeminiAPIKey := GeminiAPIKey cfg;
                   GeminiModel := GeminiModel cfg;
                   GeminiTemperature := t;
                   GeminiMaxTokens := GeminiMaxTokens cfg;
                   DebugMode := DebugMode cfg; DebugDir := DebugDir cfg |}
            | None => cfg
            end
        end in
      let cfg :=
        match Getenv env (str "GEMINI_MAX_TOKENS") with
        | [] => cfg
        | _ :: _ =>
            match Atoi (Getenv env (str "GEMINI_MAX_TOKENS")) with
            | (mt, None) =>
                {| GeminiAPIKey := GeminiAPIKey cfg;
                   GeminiModel := GeminiModel cfg;
                   GeminiTemperature := GeminiTemperature cfg;
                   GeminiMaxTokens := mt;
                   DebugMode := DebugMode cfg; DebugDir := DebugDir cfg |}
            | (_, Some _) => cfg
            end
        end in
      Some cfg
  end.

(** loadConfig of the commands: the file first (its error is only
    printed), then the environment. *)
Definition loadConfig (env : gmap (list Z) (list Z)) (file : ReadResult) : option Config :=
  Load (fst (LoadEnvFile env file)).
End Config.

(** * Properties *)

(** ** The scenarios of section 8 of the specification, run on the model *)

(** Two candidates starting at 1000 and 1050: the first end is forced to
    [1000 + 1000]. *)
Example reconcile_close_starts :
  processSubtitles [cand 0 1000 0; cand 1 1050 0]
  = [mkSubtitle 1000 2000 (str "t"); mkSubtitle 1050 2050 (str "t")].
Proof. reflexivity. Qed.

(** 310 words, first answer ending with [st_id = 295]: the second batch
    starts at index 295 and has 15 words. *)
Example scenario_310_batches :
  match batchLoop 2 service_310 (words 310) initState with
  | Returned st => printed st
  | _ => []
  end = [mkBatchLine 1 0 299 300; mkBatchLine 2 295 309 15].
Proof. by vm_compute. Qed.

Example clean_fenced_array :
  cleanJsonContent (str " ```json [1, 2] ``` ") = str "[1, 2]".
Proof. reflexivity. Qed.

(** ** 64-bit arithmetic *)

Lemma wrap_range z : int64 (wrap z).
Proof.
  unfold int64, wrap, int_min, int_max.
  pose proof (Z.mod_pos_bound (z + 2 ^ 63) (2 ^ 64) ltac:(lia)). lia.
Qed.

Lemma wrap_small z : int64 z -> wrap z = z.
Proof.
  unfold int64, wrap, int_min, int_max. intros Hz.
  rewrite Z.mod_small by lia. lia.
Qed.

(** Wrapping moves a value by a multiple of [2^64]. *)
Lemma wrap_shift z k : wrap (z + k * 2 ^ 64) = wrap z.
Proof.
  unfold wrap. replace (z + k * 2 ^ 64 + 2 ^ 63) with (z + 2 ^ 63 + k * 2 ^ 64) by lia.
  by rewrite Z.mod_add by lia.
Qed.

Lemma wrap_multiple z : exists k, wrap z = z + k * 2 ^ 64.
Proof.
  exists (- ((z + 2 ^ 63) / 2 ^ 64)). unfold wrap.
  pose proof (Z.div_mod (z + 2 ^ 63) (2 ^ 64) ltac:(lia)). lia.
Qed.

Lemma sub64_wrap_l a b : sub64 (wrap a) b = sub64 a b.
Proof.
  unfold sub64. destruct (wrap_multiple a) as [k ->].
  replace (a + k * 2 ^ 64 - b) with (a - b + k * 2 ^ 64) by lia.
  apply wrap_shift.
Qed.

(** One overflow upwards lands [2^64] lower. *)
Lemma wrap_above z : int_max < z <= int_max + 2 ^ 64 -> wrap z = z - 2 ^ 64.
Proof.
  intros Hz. replace z with (z - 2 ^ 64 + 1 * 2 ^ 64) at 1 by lia.
  rewrite wrap_shift. apply wrap_small. unfold int64, int_min, int_max in *. lia.
Qed.

(** ** The per-batch reconciler *)

Lemma endMs_tentative_int64 sub : int64 (endMs_tentative sub).
Proof.
  unfold endMs_tentative, add64. destruct (0 <? _); [apply wrap_range|].
  unfold int64, int_min, int_max. lia.
Qed.

Lemma endMs_next_int64 inputSubtitles i e : int64 e -> int64 (endMs_next inputSubtitles i e).
Proof.
  intros He. unfold endMs_next, sub64.
  destruct (_ <? _); [|done]. destruct (_ !! _); [|done].
  cbv zeta. destruct (_ || _); [apply wrap_range|done].
Qed.

(** What the minimum-duration step guarantees for any 64-bit end. *)
Lemma endMs_minimum_duration sub e :
  int64 e -> int64 (inStartMs sub) ->
  1000 <= sub64 (endMs_minimum sub e) (inStartMs sub) /\
  (inStartMs sub <= int_max - 1000 -> 1000 <= endMs_minimum sub e - inStartMs sub).
Proof.
  intros He Hs. unfold endMs_minimum.
  destruct (_ || _) eqn:Hforce.
  - split.
    + unfold add64. rewrite sub64_wrap_l. unfold sub64.
      replace (inStartMs sub + 1000 - inStartMs sub) with 1000 by lia.
      rewrite wrap_small; [lia|]. unfold int64, int_min, int_max. lia.
    + intros Hmax. unfold add64. rewrite wrap_small; [lia|].
      unfold int64, int_min, int_max in *. lia.
  - apply orb_false_iff in Hforce as [Hle Hspan].
    apply Z.leb_gt in Hle. apply Z.ltb_ge in Hspan.
    split; [done|]. intros _.
    destruct (decide (e - inStartMs sub <= int_max)) as [Hfit|Hover].
    + unfold sub64 in Hspan. rewrite wrap_small in Hspan; [lia|].
      unfold int64, int_min, int_max in *. lia.
    + unfold sub64 in Hspan. rewrite wrap_above in Hspan;
        unfold int64, int_min, int_max in *; lia.
Qed.

(** The element that processSubtitles appends for index [i]. *)
Lemma processSubtitles_lookup inputSubtitles i :
  processSubtitles inputSubtitles !! i =
  (fun sub => {| StartMs := inStartMs sub;
                 EndMs := endMs_of inputSubtitles i sub;
                 Text := inText sub |}) <$> inputSubtitles !! i.
Proof. unfold processSubtitles. by rewrite list_lookup_imap. Qed.

Lemma processSubtitles_length inputSubtitles :
  length (processSubtitles inputSubtitles) = length inputSubtitles.
Proof. unfold processSubtitles. apply length_imap. Qed.

Lemma processSubtitles_elem inputSubtitles s :
  s ∈ processSubtitles inputSubtitles ->
  exists i sub, inputSubtitles !! i = Some sub /\
    s = {| StartMs := inStartMs sub;
           EndMs := endMs_of inputSubtitles i sub;
           Text := inText sub |}.
Proof.
  intros [i Hi]%list_elem_of_lookup. rewrite processSubtitles_lookup in Hi.
  destruct (inputSubtitles !! i) as [sub|] eqn:Hsub; [|done].
  exists i, sub. split; [done|]. by inversion Hi.
Qed.

(** C10: processSubtitles returns exactly one Subtitle per candidate, in
    the order of the candidates; the subtitle at index [i] has the
    [st_ms] of candidate [i] as its [start_ms] and its [text] as text. No
    candidate is dropped, merged or reordered. *)
Theorem C10_one_subtitle_per_candidate (inputSubtitles : list SubtitleInput) :
  length (processSubtitles inputSubtitles) = length inputSubtitles /\
  (fun s => (StartMs s, Text s)) <$> processSubtitles inputSubtitles
    = (fun c => (inStartMs c, inText c)) <$> inputSubtitles /\
  (forall i c, inputSubtitles !! i = Some c ->
     exists s, processSubtitles inputSubtitles !! i = Some s /\
               StartMs s = inStartMs c /\ Text s = inText c).
Proof.
  split; [apply processSubtitles_length|]. split.
  - unfold processSubtitles. rewrite fmap_imap.
    rewrite <- (imap_const (fun c => (inStartMs c, inText c))).
    by apply imap_ext.
  - intros i c Hc. rewrite processSubtitles_lookup, Hc. simpl. eauto.
Qed.

(** C7 fails on the code when [start_ms + 1000] wraps around: for a
    candidate that starts at 9223372036854775307 (500 ms further than the
    last start that leaves room for 1000 ms) the reconciler returns the
    end -9223372036854775309, which is before the start. *)
Lemma C7_duration_wraps_at_late_start :
  processSubtitles [cand 0 9223372036854775307 0]
    = [mkSubtitle 9223372036854775307 (-9223372036854775309) (str "t")] /\
  ~ (EndMs (mkSubtitle 9223372036854775307 (-9223372036854775309) (str "t"))
     - StartMs (mkSubtitle 9223372036854775307 (-9223372036854775309) (str "t")) >= 1000).
Proof.
  split; [by vm_compute|]. simpl. lia.
Qed.

(** C7, amended: every Subtitle produced by the per-batch reconciler
    whose [start_ms] is at most [2^63 - 1 - 1000] lasts at least 1000 ms,
    [end_ms - start_ms >= 1000]; and for every [start_ms] the difference
    as the program computes it (in 64-bit arithmetic) is at least 1000. *)
Theorem C7_minimum_duration (inputSubtitles : list SubtitleInput) (s : Subtitle) :
  Forall input_int64 inputSubtitles ->
  s ∈ processSubtitles inputSubtitles ->
  1000 <= sub64 (EndMs s) (StartMs s) /\
  (StartMs s <= int_max - 1000 -> 1000 <= EndMs s - StartMs s).
Proof.
  intros Hall (i & sub & Hsub & ->)%processSubtitles_elem. simpl.
  rewrite Forall_forall in Hall.
  destruct (Hall sub) as (_ & Hs & _); [by eapply list_elem_of_lookup_2|].
  unfold endMs_of. apply endMs_minimum_duration; [|done].
  apply endMs_next_int64, endMs_tentative_int64.
Qed.

Lemma C7_minimum_duration_witness :
  Forall input_int64 [cand 0 1000 0; cand 1 1050 0] /\
  mkSubtitle 1000 2000 (str "t") ∈ processSubtitles [cand 0 1000 0; cand 1 1050 0] /\
  1000 <= sub64 (EndMs (mkSubtitle 1000 2000 (str "t")))
                (StartMs (mkSubtitle 1000 2000 (str "t"))) /\
  (StartMs (mkSubtitle 1000 2000 (str "t")) <= int_max - 1000 ->
   1000 <= EndMs (mkSubtitle 1000 2000 (str "t")) - StartMs (mkSubtitle 1000 2000 (str "t"))).
Proof.
  assert (Hin : Forall input_int64 [cand 0 1000 0; cand 1 1050 0])
    by (repeat constructor; vm_compute; congruence).
  assert (Hel : mkSubtitle 1000 2000 (str "t") ∈ processSubtitles [cand 0 1000 0; cand 1 1050 0])
    by (vm_compute; left).
  split; [exact Hin|]. split; [exact Hel|].
  exact (C7_minimum_duration _ _ Hin Hel).
Defined.

(** The loop of processSubtitles, started inside a longer slice, makes
    the list the specification's recursion makes (in machine arithmetic). *)
Lemma imap_endMs_reconcile (seen todo : list SubtitleInput) :
  imap (fun i sub =>
          {| StartMs := inStartMs sub;
             EndMs := endMs_of (seen ++ todo) (length seen + i) sub;
             Text := inText sub |}) todo
  = Spec.reconcile add64 sub64 todo.
Proof.
  revert seen. induction todo as [|c rest IH]; intros seen; [done|].
  rewrite imap_cons. simpl Spec.reconcile. f_equal.
  - f_equal. unfold endMs_of, endMs_minimum, Spec.force_minimum.
    assert (Hnext : endMs_next (seen ++ c :: rest) (length seen + 0) (endMs_tentative c)
                    = Spec.clamp_to_next sub64 (Spec.tentative_end add64 c) (head rest)).
    { unfold endMs_next. rewrite length_app. simpl length.
      replace (length seen + 0 + 1)%nat with (length seen + 1)%nat by lia.
      rewrite lookup_app_r by lia.
      replace (length seen + 1 - length seen)%nat with 1%nat by lia.
      simpl. destruct rest as [|n rest']; simpl.
      - rewrite (proj2 (Z.ltb_ge _ _)) by lia. done.
      - rewrite (proj2 (Z.ltb_lt _ _)) by lia.
        unfold Spec.min_with_infinity, Spec.or_infinity.
        change (Spec.tentative_end add64 c) with (endMs_tentative c).
        destruct (endMs_tentative c =? 0) eqn:Hz; simpl; [done|].
        destruct (_ <? _) eqn:Hlt.
        + apply Z.ltb_lt in Hlt. lia.
        + apply Z.ltb_ge in Hlt. lia. }
    rewrite Hnext. done.
  - rewrite <- (IH (seen ++ [c])). apply imap_ext. intros i sub _. simpl.
    rewrite <- app_assoc. simpl. rewrite length_app. simpl.
    by replace (length seen + 1 + i)%nat with (length seen + S i)%nat by lia.
Qed.

Lemma processSubtitles_reconcile inputSubtitles :
  processSubtitles inputSubtitles = Spec.reconcile add64 sub64 inputSubtitles.
Proof. apply (imap_endMs_reconcile [] inputSubtitles). Qed.

(** On timestamps in range the machine's steps are the mathematical ones. *)
Lemma force_minimum_exact start_ms e :
  in_ms_range start_ms -> - ms_limit - 100 <= e <= ms_limit + 1500 ->
  Spec.force_minimum add64 sub64 start_ms e = Spec.force_minimum Z.add Z.sub start_ms e.
Proof.
  unfold in_ms_range, ms_limit, Spec.force_minimum, add64, sub64. intros Hs He.
  rewrite !wrap_small; [done| |]; unfold int64, int_min, int_max; lia.
Qed.

Lemma tentative_end_exact c :
  in_ms_range (LastWordStartMs c) ->
  Spec.tentative_end add64 c = Spec.tentative_end Z.add c /\
  0 <= Spec.tentative_end Z.add c <= ms_limit + 1500.
Proof.
  unfold in_ms_range, ms_limit, Spec.tentative_end, add64. intros Hl.
  destruct (0 <? _) eqn:Hpos; [apply Z.ltb_lt in Hpos|]; [|lia].
  rewrite wrap_small; [lia|]. unfold int64, int_min, int_max; lia.
Qed.

Lemma clamp_to_next_exact e next :
  0 <= e <= ms_limit + 1500 ->
  (forall n, next = Some n -> in_ms_range (inStartMs n)) ->
  Spec.clamp_to_next sub64 e next = Spec.clamp_to_next Z.sub e next /\
  - ms_limit - 100 <= Spec.clamp_to_next Z.sub e next <= ms_limit + 1500.
Proof.
  intros He Hn. destruct next as [n|]; simpl; [|unfold ms_limit in *; lia].
  specialize (Hn n eq_refl). unfold in_ms_range, ms_limit in *.
  unfold sub64. rewrite wrap_small by (unfold int64, int_min, int_max; lia).
  split; [done|]. unfold Spec.min_with_infinity, Spec.or_infinity.
  destruct (e =? 0); lia.
Qed.

Lemma reconcile_exact cands :
  Forall input_in_ms_range cands ->
  Spec.reconcile add64 sub64 cands = Spec.reconcile Z.add Z.sub cands.
Proof.
  induction 1 as [|c rest [Hs Hl] Hrest IH]; [done|]. simpl. rewrite IH. f_equal.
  destruct (tentative_end_exact c Hl) as [-> Ht].
  destruct (clamp_to_next_exact (Spec.tentative_end Z.add c) (head rest) Ht) as [-> Hc].
  { intros n Hn. destruct rest as [|n' rest']; [done|]. simpl in Hn. inversion Hn; subst.
    by inversion Hrest as [|?? [Hn' _] _]. }
  by rewrite force_minimum_exact.
Qed.



(** ** The post-processing pass of the Track Assembler *)

Lemma fixLoop_S fuel i track :
  fixLoop (S fuel) i track =
  if Z.of_nat i <? Z.of_nat (length track) then
    match track !! (i - 1)%nat, track !! i with
    | Some prev, Some cur =>
        fixLoop fuel (S i)
          (if EndMs prev >? StartMs cur
           then <[(i - 1)%nat := setEndMs prev (sub64 (StartMs cur) 100)]> track
           else track)
    | _, _ => track
    end
  else track.
Proof. reflexivity. Qed.

(** The in-place loop, entered at the index after [before], clamps the
    rest of the track and leaves [before] alone. *)
Lemma fixLoop_clampEnds fuel (before : list Subtitle) prev rest :
  (length rest <= fuel)%nat ->
  fixLoop fuel (S (length before)) (before ++ prev :: rest)
  = before ++ clampEnds (prev :: rest).
Proof.
  revert before prev rest. induction fuel as [|fuel IH]; intros before prev rest Hfuel.
  - destruct rest; [done|simpl in Hfuel; lia].
  - rewrite fixLoop_S, length_app.
    destruct rest as [|cur rest]; cbn [length] in *.
    + rewrite (proj2 (Z.ltb_ge _ _)) by lia. done.
    + rewrite (proj2 (Z.ltb_lt _ _)) by (simpl; lia).
      replace (S (length before) - 1)%nat with (length before) by lia.
      rewrite list_lookup_middle by done.
      replace (before ++ prev :: cur :: rest) with ((before ++ [prev]) ++ cur :: rest)
        by (by rewrite <- app_assoc).
      rewrite (list_lookup_middle (before ++ [prev]) rest cur (S (length before)))
        by (rewrite length_app; simpl; lia).
      assert (Hstep : forall prev',
        fixLoop fuel (S (S (length before))) ((before ++ [prev']) ++ cur :: rest)
        = before ++ prev' :: clampEnds (cur :: rest)).
      { intros prev'.
        replace (S (S (length before))) with (S (length (before ++ [prev'])))
          by (rewrite length_app; simpl; lia).
        rewrite IH by (simpl in Hfuel; lia). by rewrite <- app_assoc. }
      simpl clampEnds. simpl clampEnd. destruct (EndMs prev >? StartMs cur).
      * assert (Hins : forall x,
          <[length before := x]> ((before ++ [prev]) ++ cur :: rest)
          = (before ++ [x]) ++ cur :: rest).
        { intros x. rewrite <- !app_assoc. simpl.
          rewrite insert_app_r_alt by lia.
          by replace (length before - length before)%nat with 0%nat by lia. }
        rewrite Hins. apply Hstep.
      * apply Hstep.
Qed.

Lemma fixTransitions_clampEnds (track : list Subtitle) :
  fixTransitions track = clampEnds track.
Proof.
  unfold fixTransitions. destruct track as [|prev rest]; [done|].
  destruct (_ <? _) eqn:Hlen.
  - apply (fixLoop_clampEnds (length (prev :: rest)) [] prev rest). simpl. lia.
  - apply Z.ltb_ge in Hlen. destruct rest; [done|simpl in Hlen; lia].
Qed.

Lemma clampEnds_length track : length (clampEnds track) = length track.
Proof. induction track; simpl; congruence. Qed.

Lemma clampEnds_lookup track i :
  clampEnds track !! i = (fun prev => clampEnd prev (track !! S i)) <$> track !! i.
Proof.
  revert i. induction track as [|prev rest IH]; intros i; [done|].
  destruct i as [|i]; simpl.
  - by destruct rest.
  - apply IH.
Qed.

Lemma clampEnd_frame prev next :
  StartMs (clampEnd prev next) = StartMs prev /\ Text (clampEnd prev next) = Text prev.
Proof. destruct next as [cur|]; simpl; [destruct (_ >? _)|]; done. Qed.

Lemma sub64_100_exact x : int_min + 100 <= x <= int_max -> sub64 x 100 = x - 100.
Proof. intros Hx. apply wrap_small. unfold int64. lia. Qed.

(** C9 fails on the code when [start_ms - 100] wraps around: before a
    subtitle that starts at -9223372036854775758 the pass replaces the end
    6000 by 9223372036854775758, which is larger. *)
Lemma C9_pass_raises_end_when_subtraction_wraps :
  fixTransitions [mkSubtitle 5000 6000 (str "a");
                  mkSubtitle (-9223372036854775758) 0 (str "b")]
    = [mkSubtitle 5000 9223372036854775758 (str "a");
       mkSubtitle (-9223372036854775758) 0 (str "b")] /\
  ~ (EndMs (mkSubtitle 5000 9223372036854775758 (str "a"))
     <= EndMs (mkSubtitle 5000 6000 (str "a"))).
Proof.
  split; [by vm_compute|]. simpl. lia.
Qed.

(** C9, amended: the global pass keeps the length of the track and the
    [start_ms] and [text] of every subtitle, for every input list; the
    only field it writes is [end_ms], and for every input list whose
    [start_ms] values are all at least [-2^63 + 100] (where
    [start_ms - 100] does not wrap around) it never increases it. *)
Theorem C9_pass_only_lowers_end (track : list Subtitle) :
  length (fixTransitions track) = length track /\
  (forall i a b, track !! i = Some a -> fixTransitions track !! i = Some b ->
     StartMs b = StartMs a /\ Text b = Text a /\
     (Forall (fun s => int_min + 100 <= StartMs s <= int_max) track ->
      EndMs b <= EndMs a)).
Proof.
  rewrite fixTransitions_clampEnds. split; [apply clampEnds_length|].
  intros i a b Ha Hb. rewrite clampEnds_lookup, Ha in Hb. simpl in Hb.
  inversion Hb as [Hb']. clear Hb Hb'.
  destruct (clampEnd_frame a (track !! S i)) as [Hs Ht].
  split; [done|]. split; [done|]. intros Hbounds.
  destruct (track !! S i) as [cur|] eqn:Hcur; simpl; [|lia].
  destruct (EndMs a >? StartMs cur) eqn:Hgt; [|lia].
  simpl. rewrite Z.gtb_ltb in Hgt. apply Z.ltb_lt in Hgt.
  rewrite Forall_forall in Hbounds.
  rewrite sub64_100_exact; [lia|]. apply Hbounds. by eapply list_elem_of_lookup_2.
Qed.

Lemma C9_pass_only_lowers_end_witness :
  fixTransitions [mkSubtitle 1000 2000 (str "a"); mkSubtitle 1050 2050 (str "b")] !! 0%nat
    = Some (mkSubtitle 1000 950 (str "a")) /\
  Forall (fun s => int_min + 100 <= StartMs s <= int_max)
    [mkSubtitle 1000 2000 (str "a"); mkSubtitle 1050 2050 (str "b")] /\
  EndMs (mkSubtitle 1000 950 (str "a")) <= EndMs (mkSubtitle 1000 2000 (str "a")).
Proof.
  assert (Hb : fixTransitions [mkSubtitle 1000 2000 (str "a"); mkSubtitle 1050 2050 (str "b")] !! 0%nat
               = Some (mkSubtitle 1000 950 (str "a"))) by reflexivity.
  assert (Hr : Forall (fun s => int_min + 100 <= StartMs s <= int_max)
                 [mkSubtitle 1000 2000 (str "a"); mkSubtitle 1050 2050 (str "b")])
    by (repeat constructor; vm_compute; congruence).
  split; [exact Hb|]. split; [exact Hr|].
  exact (proj2 (proj2 (proj2 (C9_pass_only_lowers_end
           [mkSubtitle 1000 2000 (str "a"); mkSubtitle 1050 2050 (str "b")])
           0%nat (mkSubtitle 1000 2000 (str "a")) _ eq_refl Hb)) Hr).
Defined.

(** ** The batch loop *)

Lemma loopBody_inv service wordTimings st :
  match loopBody service wordTimings st with
  | Continue st' => ran service wordTimings st st' false
  | Break st' => ran service wordTimings st st' true
  | Abort _ | Panic => True
  end.
Proof.
  unfold loopBody.
  set (endIndex := if _ >? _ then _ else _).
  destruct (slice wordTimings (startIndex st) endIndex) as [batch|] eqn:Hslice; [|done].
  unfold processBatch, parseBatchResponse.
  destruct (service (batchNum st) batch (startIndex st)) as [e|ins] eqn:Hreply; [done|].
  destruct (_ <? batchSize) eqn:Hshort; exists endIndex, batch, ins; by rewrite Hreply.
Qed.

(** A successful slice expression has its bounds in order. *)
Lemma slice_Some {A} (s : list A) lo hi batch :
  slice s lo hi = Some batch ->
  0 <= lo <= hi /\ hi <= Z.of_nat (length s) /\ Z.of_nat (length batch) = hi - lo.
Proof.
  unfold slice. destruct (_ && _) eqn:Hb; [|done]. intros [= <-].
  apply andb_true_iff in Hb as [Hb Hhi]. apply andb_true_iff in Hb as [Hlo Hlohi].
  apply Z.leb_le in Hhi, Hlo, Hlohi.
  rewrite length_take, length_drop. lia.
Qed.

(** The loop rule: an invariant [I] that every completed iteration keeps,
    and a postcondition [Q] that holds when the guard fails under [I] and
    after an iteration left by [break]. *)
Lemma batchLoop_rule (I Q : LoopState -> Prop) service wordTimings :
  (forall st st',
     I st -> startIndex st < Z.of_nat (length wordTimings) ->
     loopBody service wordTimings st = Continue st' -> I st') ->
  (forall st st',
     I st -> startIndex st < Z.of_nat (length wordTimings) ->
     loopBody service wordTimings st = Break st' -> Q st') ->
  (forall st, I st -> Z.of_nat (length wordTimings) <= startIndex st -> Q st) ->
  forall fuel st st',
    I st -> batchLoop fuel service wordTimings st = Returned st' -> Q st'.
Proof.
  intros Hkeep Hbreak Hexit. induction fuel as [|fuel IH]; intros st st' HI; simpl.
  - destruct (_ <? _) eqn:Hguard; [done|]. apply Z.ltb_ge in Hguard.
    intros [= <-]. by apply Hexit.
  - destruct (_ <? _) eqn:Hguard;
      [apply Z.ltb_lt in Hguard|apply Z.ltb_ge in Hguard; intros [= <-]; by apply Hexit].
    destruct (loopBody service wordTimings st) as [st1|st1| |] eqn:Hbody; try done.
    + apply IH. eapply Hkeep; eauto.
    + intros [= <-]. eapply Hbreak; eauto.
Qed.

(** The track before post-processing is made of reconciler outputs. *)
Lemma batchLoop_allSubtitles (P : Subtitle -> Prop) service wordTimings fuel st st' :
  (forall subtitleInputs, Forall P (processSubtitles subtitleInputs)) ->
  Forall P (allSubtitles st) ->
  batchLoop fuel service wordTimings st = Returned st' ->
  Forall P (allSubtitles st').
Proof.
  intros HP.
  assert (Hstep : forall st st' short,
            Forall P (allSubtitles st) -> ran service wordTimings st st' short ->
            Forall P (allSubtitles st')).
  { intros s1 s2 short H1 (endIndex & batch & ins & _ & _ & _ & ->). simpl.
    apply Forall_app; auto. }
  apply (batchLoop_rule (fun st => Forall P (allSubtitles st))
                        (fun st => Forall P (allSubtitles st))); [| |done].
  - intros s1 s2 H1 _ Hbody. pose proof (loopBody_inv service wordTimings s1) as Hinv.
    rewrite Hbody in Hinv. eauto.
  - intros s1 s2 H1 _ Hbody. pose proof (loopBody_inv service wordTimings s1) as Hinv.
    rewrite Hbody in Hinv. eauto.
Qed.

Lemma CreateSubtitles_Returned c MkdirAll fuel service wordTimings track :
  CreateSubtitles c MkdirAll fuel service wordTimings = Returned track ->
  exists st, batchLoop fuel service wordTimings initState = Returned st /\
             track = clampEnds (allSubtitles st).
Proof.
  unfold CreateSubtitles. destruct (ensureDebugDir c MkdirAll); [done|].
  destruct (batchLoop fuel service wordTimings initState) as [st| | |]; try done.
  intros [= <-]. exists st. by rewrite fixTransitions_clampEnds.
Qed.

(** C4 fails on the code when [start_ms - 100] wraps around: with a
    second candidate that starts at -9223372036854775758 the track
    CreateSubtitles returns has a first subtitle that ends at
    9223372036854775758, after the start of the second. *)
Lemma C4_overlap_when_subtraction_wraps :
  CreateSubtitles client_plain mkdir_ok 1 service_early_start (words 2)
    = Returned [mkSubtitle 5000 9223372036854775758 (str "t");
                mkSubtitle (-9223372036854775758) 0 (str "t")] /\
  ~ (EndMs (mkSubtitle 5000 9223372036854775758 (str "t"))
     <= StartMs (mkSubtitle (-9223372036854775758) 0 (str "t"))).
Proof.
  split; [by vm_compute|]. simpl. lia.
Qed.

(** C4, amended: in a track CreateSubtitles returns whose [start_ms]
    values are all at least [-2^63 + 100] (so that [start_ms - 100] does
    not wrap around), after the single global monotonicity pass over the
    concatenated per-batch subtitles, every subtitle ends at or before
    the start of the next one; an end that overlapped the next start was
    set to that start minus 100, any other end was kept. *)
Theorem C4_no_overlap (c : Client) (MkdirAll : gostring -> OsResult)
    fuel service wordTimings (track : list Subtitle) :
  CreateSubtitles c MkdirAll fuel service wordTimings = Returned track ->
  Forall (fun s => int_min + 100 <= StartMs s <= int_max) track ->
  (forall i a b, track !! i = Some a -> track !! S i = Some b ->
     EndMs a <= StartMs b) /\
  (exists st, batchLoop fuel service wordTimings initState = Returned st /\
     track = fixTransitions (allSubtitles st) /\
     forall i p q, allSubtitles st !! i = Some p -> allSubtitles st !! S i = Some q ->
       exists a, track !! i = Some a /\
         EndMs a = if EndMs p >? StartMs q then StartMs q - 100 else EndMs p).
Proof.
  intros (st & Hrun & ->)%CreateSubtitles_Returned Hbounds.
  rewrite Forall_forall in Hbounds.
  assert (Hclamped : forall i p q,
            allSubtitles st !! i = Some p -> allSubtitles st !! S i = Some q ->
            clampEnds (allSubtitles st) !! i = Some (clampEnd p (Some q)) /\
            sub64 (StartMs q) 100 = StartMs q - 100).
  { intros i p q Hp Hq. split; [by rewrite clampEnds_lookup, Hp, Hq|].
    apply sub64_100_exact.
    rewrite <- (proj1 (clampEnd_frame q (allSubtitles st !! S (S i)))).
    apply Hbounds. apply list_elem_of_lookup. exists (S i).
    by rewrite clampEnds_lookup, Hq. }
  split.
  - intros i a b Ha Hb. rewrite clampEnds_lookup in Ha, Hb.
    destruct (allSubtitles st !! i) as [p|] eqn:Hp; [|done].
    destruct (allSubtitles st !! S i) as [q|] eqn:Hq; [|done].
    destruct (Hclamped i p q Hp Hq) as [_ Hq100].
    simpl in Ha, Hb. injection Ha as <-. injection Hb as <-.
    rewrite (proj1 (clampEnd_frame q _)).
    simpl. destruct (EndMs p >? StartMs q) eqn:Hgt.
    + simpl. lia.
    + rewrite Z.gtb_ltb in Hgt. apply Z.ltb_ge in Hgt. lia.
  - exists st. split; [done|]. split; [by rewrite fixTransitions_clampEnds|].
    intros i p q Hp Hq. destruct (Hclamped i p q Hp Hq) as [Ha Hq100].
    eexists. split; [exact Ha|]. simpl.
    destruct (EndMs p >? StartMs q); [simpl; lia|done].
Qed.

Lemma C4_no_overlap_witness :
  CreateSubtitles client_plain mkdir_ok 2 service_310 (words 310)
    = Returned [mkSubtitle 0 29400 (str "t"); mkSubtitle 29500 29400 (str "t");
                mkSubtitle 29500 32400 (str "t")] /\
  Forall (fun s => int_min + 100 <= StartMs s <= int_max)
    [mkSubtitle 0 29400 (str "t"); mkSubtitle 29500 29400 (str "t");
     mkSubtitle 29500 32400 (str "t")] /\
  EndMs (mkSubtitle 0 29400 (str "t")) <= StartMs (mkSubtitle 29500 29400 (str "t")).
Proof.
  assert (Hrun : CreateSubtitles client_plain mkdir_ok 2 service_310 (words 310)
    = Returned [mkSubtitle 0 29400 (str "t"); mkSubtitle 29500 29400 (str "t");
                mkSubtitle 29500 32400 (str "t")]) by (vm_compute; reflexivity).
  assert (Hr : Forall (fun s => int_min + 100 <= StartMs s <= int_max)
    [mkSubtitle 0 29400 (str "t"); mkSubtitle 29500 29400 (str "t");
     mkSubtitle 29500 32400 (str "t")]) by (repeat constructor; vm_compute; congruence).
  split; [exact Hrun|]. split; [exact Hr|].
  exact (proj1 (C4_no_overlap _ _ _ _ _ _ Hrun Hr) 0%nat
           (mkSubtitle 0 29400 (str "t")) (mkSubtitle 29500 29400 (str "t"))
           eq_refl eq_refl).
Defined.

(** Before post-processing every subtitle lasts 1000 ms, as integers,
    when its start leaves room for it. *)
Lemma processSubtitles_duration subtitleInputs :
  Forall (fun s => int64 (StartMs s) -> StartMs s <= int_max - 1000 ->
                   1000 <= EndMs s - StartMs s)
         (processSubtitles subtitleInputs).
Proof.
  apply Forall_forall. intros s (i & sub & _ & ->)%processSubtitles_elem. simpl.
  intros Hs Hmax. unfold endMs_of.
  apply endMs_minimum_duration; [|done..].
  apply endMs_next_int64, endMs_tentative_int64.
Qed.

(** C5 fails on the code: two candidates that start 50 ms apart (the
    scenario of section 8) leave a first subtitle that ends at 950, before
    its own start at 1000, in the track CreateSubtitles returns. It also
    fails without any clamping when [start_ms + 1000] wraps around: the
    one subtitle made of a candidate that starts at 9223372036854775307
    ends at -9223372036854775309. *)
Lemma C5_final_track_end_before_start :
  (CreateSubtitles client_plain mkdir_ok 1 service_close_starts (words 2)
     = Returned [mkSubtitle 1000 950 (str "t"); mkSubtitle 1050 2050 (str "t")] /\
   mkSubtitle 1000 950 (str "t")
     ∈ [mkSubtitle 1000 950 (str "t"); mkSubtitle 1050 2050 (str "t")] /\
   ~ (EndMs (mkSubtitle 1000 950 (str "t")) > StartMs (mkSubtitle 1000 950 (str "t"))) /\
   ~ (EndMs (mkSubtitle 1000 950 (str "t")) - StartMs (mkSubtitle 1000 950 (str "t")) >= 1000)) /\
  (CreateSubtitles client_plain mkdir_ok 1 service_late_start (words 1)
     = Returned [mkSubtitle 9223372036854775307 (-9223372036854775309) (str "t")] /\
   ~ (EndMs (mkSubtitle 9223372036854775307 (-9223372036854775309) (str "t"))
      > StartMs (mkSubtitle 9223372036854775307 (-9223372036854775309) (str "t")))).
Proof.
  split.
  - split; [by vm_compute|]. split; [left|]. simpl. lia.
  - split; [by vm_compute|]. simpl. lia.
Qed.

(** C5, amended: in a track CreateSubtitles returns whose [start_ms]
    values all lie between [-2^63 + 100] and [2^63 - 1 - 1000] (where
    [start_ms - 100] and [start_ms + 1000] are 64-bit values), a subtitle
    lasts at least 1000 ms (so it ends after its start) unless the global
    pass clamped it: then it ends 100 ms before the start of the next
    subtitle, and that next subtitle starts less than 1100 ms after it. *)
Theorem C5_minimum_duration_unless_clamped (c : Client) (MkdirAll : gostring -> OsResult)
    fuel service wordTimings (track : list Subtitle) :
  CreateSubtitles c MkdirAll fuel service wordTimings = Returned track ->
  Forall start_in_bounds track ->
  forall i a, track !! i = Some a ->
    1000 <= EndMs a - StartMs a \/
    exists b, track !! S i = Some b /\
              EndMs a = StartMs b - 100 /\ StartMs b < StartMs a + 1100.
Proof.
  intros (st & Hrun & ->)%CreateSubtitles_Returned Hbounds i a Ha.
  pose proof (batchLoop_allSubtitles _ service wordTimings fuel initState st
                processSubtitles_duration (Forall_nil_2 _) Hrun) as Hdur.
  rewrite Forall_forall in Hbounds, Hdur.
  assert (Hba : start_in_bounds a) by (apply Hbounds; by eapply list_elem_of_lookup_2).
  pose proof Ha as Ha'. rewrite clampEnds_lookup in Ha'.
  destruct (allSubtitles st !! i) as [p|] eqn:Hp; [|done].
  simpl in Ha'. injection Ha' as <-.
  unfold start_in_bounds in Hba. rewrite (proj1 (clampEnd_frame p _)) in *.
  assert (Hp1000 : 1000 <= EndMs p - StartMs p).
  { apply Hdur; [by eapply list_elem_of_lookup_2| |lia]. unfold int64. lia. }
  destruct (clampEnds (allSubtitles st) !! S i) as [b|] eqn:Hb.
  - assert (Hbb : start_in_bounds b) by (apply Hbounds; by eapply list_elem_of_lookup_2).
    rewrite clampEnds_lookup in Hb.
    destruct (allSubtitles st !! S i) as [q|] eqn:Hq; [|done].
    simpl in Hb. injection Hb as <-.
    unfold start_in_bounds in Hbb. rewrite (proj1 (clampEnd_frame q _)) in *.
    simpl clampEnd at 1 2. destruct (EndMs p >? StartMs q) eqn:Hgt; [|by left].
    assert (Hq100 : sub64 (StartMs q) 100 = StartMs q - 100).
    { apply sub64_100_exact. lia. }
    simpl. rewrite Hq100.
    destruct (decide (1000 <= StartMs q - 100 - StartMs p)) as [Hlong|Hshort]; [by left|].
    right. eexists. split; [done|].
    rewrite (proj1 (clampEnd_frame q _)), ?Hgt. simpl. rewrite ?Hq100. lia.
  - rewrite clampEnds_lookup in Hb.
    destruct (allSubtitles st !! S i) as [q|] eqn:Hq; [done|]. by left.
Qed.

Lemma C5_minimum_duration_unless_clamped_witness :
  CreateSubtitles client_plain mkdir_ok 1 service_close_starts (words 2)
    = Returned [mkSubtitle 1000 950 (str "t"); mkSubtitle 1050 2050 (str "t")] /\
  Forall start_in_bounds [mkSubtitle 1000 950 (str "t"); mkSubtitle 1050 2050 (str "t")] /\
  (1000 <= EndMs (mkSubtitle 1000 950 (str "t")) - StartMs (mkSubtitle 1000 950 (str "t")) \/
   exists b, [mkSubtitle 1000 950 (str "t"); mkSubtitle 1050 2050 (str "t")] !! 1%nat = Some b /\
             EndMs (mkSubtitle 1000 950 (str "t")) = StartMs b - 100 /\
             StartMs b < StartMs (mkSubtitle 1000 950 (str "t")) + 1100).
Proof.
  assert (Hrun : CreateSubtitles client_plain mkdir_ok 1 service_close_starts (words 2)
    = Returned [mkSubtitle 1000 950 (str "t"); mkSubtitle 1050 2050 (str "t")])
    by (vm_compute; reflexivity).
  assert (Hr : Forall start_in_bounds
    [mkSubtitle 1000 950 (str "t"); mkSubtitle 1050 2050 (str "t")])
    by (repeat constructor; vm_compute; congruence).
  split; [exact Hrun|]. split; [exact Hr|].
  exact (C5_minimum_duration_unless_clamped _ _ _ _ _ _ Hrun Hr 0%nat
           (mkSubtitle 1000 950 (str "t")) eq_refl).
Defined.

(** ** Cleaning the response text *)

Lemma HasPrefix_app prefix s : HasPrefix (prefix ++ s) prefix = true.
Proof. induction prefix as [|p prefix IH]; simpl; [done|]. by rewrite Z.eqb_refl, IH. Qed.

Lemma HasPrefix_refl s : HasPrefix s s = true.
Proof. induction s as [|c s IH]; simpl; [done|]. by rewrite Z.eqb_refl, IH. Qed.

Lemma HasPrefix_length s prefix : HasPrefix s prefix = true -> (length prefix <= length s)%nat.
Proof.
  revert s. induction prefix as [|p prefix IH]; intros [|c s]; simpl; try done; try lia.
  intros [_ H]%andb_true_iff. apply IH in H. lia.
Qed.

Lemma TrimPrefix_app prefix s : TrimPrefix (prefix ++ s) prefix = s.
Proof. unfold TrimPrefix. rewrite HasPrefix_app. by rewrite drop_app_length. Qed.

Lemma LastIndex_short s substr :
  (length s < length substr)%nat -> LastIndex s substr = -1.
Proof.
  induction s as [|c s IH]; intros Hlen.
  - destruct substr; [simpl in Hlen; lia|done].
  - simpl. rewrite IH by (simpl in Hlen; lia). simpl.
    destruct (HasPrefix (c :: s) substr) eqn:Hp; [|done].
    apply HasPrefix_length in Hp. lia.
Qed.

(** The last instance of a pattern the string ends with is that ending. *)
Lemma LastIndex_app t substr :
  substr <> [] -> LastIndex (t ++ substr) substr = Z.of_nat (length t).
Proof.
  intros Hne. induction t as [|c t IH].
  - destruct substr as [|p substr]; [done|]. simpl app.
    cbn [LastIndex]. rewrite LastIndex_short by (simpl; lia). simpl (0 <=? -1).
    cbv iota. by rewrite HasPrefix_refl.
  - simpl app. cbn [LastIndex]. rewrite IH.
    rewrite (proj2 (Z.leb_le _ _)) by lia. simpl length. lia.
Qed.

Lemma trimLeftSpace_length s : (length (trimLeftSpace s) <= length s)%nat.
Proof. induction s as [|r s IH]; simpl; [lia|]. destruct (isSpace r); simpl; lia. Qed.

Lemma trimLeftSpace_keep r s : isSpace r = false -> trimLeftSpace (r :: s) = r :: s.
Proof. intros H. simpl. by rewrite H. Qed.

Lemma trimLeftSpace_idemp s : trimLeftSpace (trimLeftSpace s) = trimLeftSpace s.
Proof.
  induction s as [|r s IH]; [done|]. simpl. destruct (isSpace r) eqn:Hr; [done|].
  by apply trimLeftSpace_keep.
Qed.

(** What is trimmed off is white space. *)
Lemma trimLeftSpace_split s :
  exists ws, s = ws ++ trimLeftSpace s /\ Forall (fun r => isSpace r = true) ws.
Proof.
  induction s as [|r s (ws & Hs & Hws)]; [by exists []|]. simpl.
  destruct (isSpace r) eqn:Hr.
  - exists (r :: ws). split; [simpl; congruence|by constructor].
  - by exists [].
Qed.

Lemma trimmed_head r s : trimLeftSpace (r :: s) = r :: s -> isSpace r = false.
Proof.
  simpl. destruct (isSpace r); [|done]. intros H.
  pose proof (trimLeftSpace_length s) as Hlen. rewrite H in Hlen. simpl in Hlen. lia.
Qed.

Lemma TrimSpace_trimmed s : trimmed s -> TrimSpace s = s.
Proof. intros [Hl Hr]. unfold TrimSpace. rewrite Hl, Hr. apply rev_involutive. Qed.

Lemma trimmed_TrimSpace s : trimmed (TrimSpace s).
Proof.
  unfold TrimSpace, trimmed. rewrite rev_involutive. split; [|apply trimLeftSpace_idemp].
  set (y := trimLeftSpace s).
  assert (Hy : trimLeftSpace y = y) by apply trimLeftSpace_idemp.
  destruct (trimLeftSpace_split (rev y)) as (ws & Hsplit & _).
  destruct (rev (trimLeftSpace (rev y))) as [|c w] eqn:Hz; [done|].
  apply trimLeftSpace_keep.
  assert (Hyc : y = c :: w ++ rev ws).
  { rewrite <- (rev_involutive y), Hsplit, rev_app_distr, Hz. done. }
  rewrite Hyc in Hy. by apply trimmed_head in Hy.
Qed.

Lemma TrimSpace_idemp s : TrimSpace (TrimSpace s) = TrimSpace s.
Proof. apply TrimSpace_trimmed, trimmed_TrimSpace. Qed.

(** A text between two fences has no white space at its ends. *)
Lemma trimmed_fenced opening t :
  (opening = fence_json \/ opening = fence) -> trimmed (opening ++ t ++ fence).
Proof.
  intros Hop. split.
  - destruct Hop as [-> | ->]; by apply trimLeftSpace_keep.
  - rewrite !rev_app_distr. by apply trimLeftSpace_keep.
Qed.

(** A text that does not open with a fence is only trimmed. *)
Lemma cleanJsonContent_unfenced t :
  HasPrefix (TrimSpace t) fence = false -> cleanJsonContent t = TrimSpace t.
Proof.
  intros Hno. unfold cleanJsonContent. rewrite Hno.
  assert (Hnoj : HasPrefix (TrimSpace t) fence_json = false).
  { destruct (TrimSpace t) as [|a [|b [|c s]]]; try done.
    change (HasPrefix (a :: b :: c :: s) fence)
      with ((a =? 96) && ((b =? 96) && ((c =? 96) && true))) in Hno.
    change (HasPrefix (a :: b :: c :: s) fence_json)
      with ((a =? 96) && ((b =? 96) && ((c =? 96) && HasPrefix s (str "json")))).
    destruct (a =? 96), (b =? 96), (c =? 96); done. }
  rewrite Hnoj. apply TrimSpace_idemp.
Qed.

(** Between a "```json" fence and a closing fence any text comes out trimmed. *)
Lemma cleanJsonContent_json_fence t :
  cleanJsonContent (fence_json ++ t ++ fence) = TrimSpace t.
Proof.
  unfold cleanJsonContent.
  rewrite (TrimSpace_trimmed (fence_json ++ t ++ fence)) by (apply trimmed_fenced; auto).
  rewrite HasPrefix_app, TrimPrefix_app, LastIndex_app by done.
  rewrite (proj2 (Z.eqb_neq _ _)) by lia. simpl negb. cbv iota.
  by rewrite Nat2Z.id, take_app_length.
Qed.

(** The check for "```json" comes first: a text that begins with "json"
    and stands between two bare fences is read as the language tag. *)
Lemma HasPrefix_json_app t :
  HasPrefix (t ++ fence) (str "json") = HasPrefix t (str "json").
Proof.
  destruct t as [|a [|b [|c [|d t]]]]; simpl; try done;
    repeat (destruct (_ =? _); simpl; try done).
Qed.

Lemma cleanJsonContent_bare_fence t :
  HasPrefix t (str "json") = false ->
  cleanJsonContent (fence ++ t ++ fence) = TrimSpace t.
Proof.
  intros Hno. unfold cleanJsonContent.
  rewrite (TrimSpace_trimmed (fence ++ t ++ fence)) by (apply trimmed_fenced; auto).
  assert (Hnoj : HasPrefix (fence ++ t ++ fence) fence_json = false).
  { change (HasPrefix (fence ++ t ++ fence) fence_json)
      with (true && (true && (true && HasPrefix (t ++ fence) (str "json")))).
    by rewrite HasPrefix_json_app, Hno. }
  rewrite Hnoj, HasPrefix_app, TrimPrefix_app, LastIndex_app by done.
  rewrite (proj2 (Z.eqb_neq _ _)) by lia. simpl negb. cbv iota.
  by rewrite Nat2Z.id, take_app_length.
Qed.

(** C8 fails on the code for some texts: a text that itself opens with a
    fence loses that fence only when cleaned on its own, and between two
    bare fences a text that begins with "json" loses those four letters. *)
Lemma C8_fenced_text_cleaned_differently :
  cleanJsonContent (fence_json ++ str "```[1]```" ++ fence)
    <> cleanJsonContent (str "```[1]```") /\
  cleanJsonContent (fence ++ str "json" ++ fence) <> cleanJsonContent (str "json").
Proof. split; vm_compute; discriminate. Qed.

(** C8, amended: for every text [t] that, trimmed, does not itself open
    with a fence, cleaning [t] between a leading "```json" and a trailing
    "```" gives the same string as cleaning [t]; so does cleaning [t]
    between two "```" when [t] does not begin with "json"; and parsing a
    body with the fenced text gives what parsing the body with [t] gives. *)
Theorem C8_fences_stripped (unmarshalInputs : gostring -> option (list SubtitleInput))
    (t : gostring) :
  HasPrefix (TrimSpace t) fence = false ->
  cleanJsonContent (fence_json ++ t ++ fence) = cleanJsonContent t /\
  (HasPrefix t (str "json") = false ->
   cleanJsonContent (fence ++ t ++ fence) = cleanJsonContent t) /\
  (forall startIndex,
     parseBatchResponse_body unmarshalInputs
       (Some (response_with (fence_json ++ t ++ fence))) startIndex
     = parseBatchResponse_body unmarshalInputs (Some (response_with t)) startIndex).
Proof.
  intros Hno. rewrite (cleanJsonContent_unfenced t Hno).
  split; [apply cleanJsonContent_json_fence|]. split.
  - apply cleanJsonContent_bare_fence.
  - intros startIndex. unfold parseBatchResponse_body, decodeBody, response_with.
    cbn [Candidates Parts PartText].
    by rewrite cleanJsonContent_json_fence, (cleanJsonContent_unfenced t Hno).
Qed.

Lemma C8_fences_stripped_witness :
  HasPrefix (TrimSpace (str " [1] ")) fence = false /\
  cleanJsonContent (fence_json ++ str " [1] " ++ fence) = cleanJsonContent (str " [1] ") /\
  HasPrefix (str " [1] ") (str "json") = false /\
  cleanJsonContent (fence ++ str " [1] " ++ fence) = cleanJsonContent (str " [1] ").
Proof.
  assert (Hno : HasPrefix (TrimSpace (str " [1] ")) fence = false) by reflexivity.
  assert (Hnoj : HasPrefix (str " [1] ") (str "json") = false) by reflexivity.
  pose proof (C8_fences_stripped (fun _ => None) (str " [1] ") Hno) as (Hjson & Hbare & _).
  split; [exact Hno|]. split; [exact Hjson|]. split; [exact Hnoj|]. exact (Hbare Hnoj).
Defined.

(** ** Advancing from batch to batch *)

Lemma length_words n : 0 <= n -> Z.of_nat (length (words n)) = n.
Proof. intros Hn. unfold words. rewrite length_fmap, length_seqZ. lia. Qed.

(** An iteration on a full batch whose call succeeds runs to its end. *)
Lemma loopBody_full_batch service wordTimings st subtitleInputs :
  0 <= startIndex st ->
  startIndex st + batchSize <= Z.of_nat (length wordTimings) ->
  startIndex st + batchSize <= int_max ->
  service (batchNum st)
          (take (Z.to_nat batchSize) (drop (Z.to_nat (startIndex st)) wordTimings))
          (startIndex st) = ReplyInputs subtitleInputs ->
  exists st', loopBody service wordTimings st = Continue st' /\
              startIndex st' = lastWordIndex_of subtitleInputs (startIndex st).
Proof.
  intros Hlo Hhi Hmax Hreply. unfold loopBody, add64.
  rewrite wrap_small by (unfold int64, int_min, int_max, batchSize in *; lia).
  rewrite Z.gtb_ltb, (proj2 (Z.ltb_ge _ _)) by lia.
  unfold slice.
  rewrite (proj2 (Z.leb_le 0 _)), (proj2 (Z.leb_le (startIndex st) _)),
    (proj2 (Z.leb_le _ (Z.of_nat (length wordTimings)))) by (unfold batchSize in *; lia).
  cbn [andb].
  replace (startIndex st + batchSize - startIndex st) with batchSize by lia.
  unfold processBatch. rewrite Hreply. cbn [parseBatchResponse].
  rewrite length_take, length_drop.
  rewrite (proj2 (Z.ltb_ge _ _)) by (unfold batchSize in *; lia).
  eexists. split; [reflexivity|done].
Qed.

Lemma batchLoop_unfold fuel service wordTimings st :
  batchLoop fuel service wordTimings st =
  if startIndex st <? Z.of_nat (length wordTimings) then
    match fuel with
    | O => OutOfFuel
    | S fuel' =>
        match loopBody service wordTimings st with
        | Continue st' => batchLoop fuel' service wordTimings st'
        | Break st' => Returned st'
        | Abort e => Failed e
        | Panic => Panicked
        end
    end
  else Returned st.
Proof. by destruct fuel. Qed.

(** A service under which a full first batch hands index 0 back keeps
    the loop at index 0 for good. *)
Lemma batchLoop_stuck service n :
  batchSize <= n -> n <= int_max ->
  (forall batchNum batch, exists subtitleInputs,
     service batchNum batch 0 = ReplyInputs subtitleInputs /\
     lastWordIndex_of subtitleInputs 0 = 0) ->
  forall fuel st, startIndex st = 0 -> batchLoop fuel service (words n) st = OutOfFuel.
Proof.
  intros Hn Hmax Hreply. unfold batchSize in Hn.
  induction fuel as [|fuel IH]; intros [subs s bn lines] Hst; simpl in Hst; subst s;
    rewrite batchLoop_unfold, length_words by lia; cbn [startIndex];
    rewrite (proj2 (Z.ltb_lt 0 n)) by lia; [done|].
  set (st := {| allSubtitles := subs; startIndex := 0; batchNum := bn; printed := lines |}).
  destruct (Hreply bn (take (Z.to_nat batchSize) (drop (Z.to_nat 0) (words n))))
    as (ins & Hins & Hlast).
  assert (Hbody : exists st', loopBody service (words n) st = Continue st' /\
                              startIndex st' = lastWordIndex_of ins (startIndex st)).
  { apply loopBody_full_batch; cbn [startIndex batchNum st];
      rewrite ?length_words by lia; unfold batchSize, int_max in *; try lia.
    exact Hins. }
  destruct Hbody as (st' & -> & Hst'). apply IH. by rewrite Hst'.
Qed.

(** C1, evaluated on the code: when the decoded array is empty,
    parseBatchResponse returns the batch's own start index as the last
    word index, so the loop variable does not advance: on 600 words and a
    service that answers "[]" the first iteration ends with
    [startIndex = 0] again (the claim has 300), and so does every later
    one. *)
Theorem C1_empty_response_does_not_advance :
  (forall startIndex, parseBatchResponse (ReplyInputs []) startIndex = inr ([], startIndex)) /\
  loopBody service_empty (words 600) initState
    = Continue {| allSubtitles := []; startIndex := 0; batchNum := 2;
                  printed := [ {| ln_batch := 1; ln_first := 0; ln_last := 299;
                                  ln_total := 300 |} ] |} /\
  (forall fuel, batchLoop fuel service_empty (words 600) initState = OutOfFuel).
Proof.
  split; [done|]. split; [by vm_compute|].
  intros fuel. apply batchLoop_stuck; [by vm_compute..| |done].
  intros bn batch. by exists [].
Qed.

(** C2 fails on the code: on 300 words, when the service makes one
    subtitle of the batch (so that the last [st_id] is the start of the
    batch), every iteration starts at index 0 again and the loop never
    returns. *)
Lemma C2_loop_does_not_terminate :
  ~ terminates client_plain mkdir_ok service_one_block (words 300).
Proof.
  assert (Hstuck : forall fuel,
            batchLoop fuel service_one_block (words 300) initState = OutOfFuel).
  { intros fuel. apply batchLoop_stuck; [by vm_compute..| |done].
    intros bn batch. by exists [cand 0 (100 * 0) 0]. }
  intros [fuel Hfuel]. apply Hfuel. unfold CreateSubtitles.
  change (ensureDebugDir client_plain mkdir_ok) with (@None Error). by rewrite Hstuck.
Qed.

(** With enough fuel for the distance left, a run in which full batches
    advance does not run out of fuel. *)
Lemma batchLoop_enough_fuel service wordTimings :
  (forall batchNum batch startIndex subtitleInputs,
     service batchNum batch startIndex = ReplyInputs subtitleInputs ->
     batchSize <= Z.of_nat (length batch) ->
     startIndex < lastWordIndex_of subtitleInputs startIndex) ->
  forall fuel st,
    (Z.to_nat (Z.of_nat (length wordTimings) - startIndex st) <= fuel)%nat ->
    batchLoop fuel service wordTimings st <> OutOfFuel.
Proof.
  intros Hadv. induction fuel as [|fuel IH]; intros st Hfuel; simpl.
  - destruct (_ <? _) eqn:Hguard; [|done]. apply Z.ltb_lt in Hguard. lia.
  - destruct (_ <? _) eqn:Hguard; [|done]. apply Z.ltb_lt in Hguard.
    pose proof (loopBody_inv service wordTimings st) as Hinv.
    destruct (loopBody service wordTimings st) as [st'|st'| |]; try done.
    destruct Hinv as (endIndex & batch & ins & _ & Hreply & Hfull & ->).
    apply Z.ltb_ge in Hfull. apply IH. simpl.
    specialize (Hadv _ _ _ _ Hreply Hfull). lia.
Qed.

(** Why the loop returned: the guard failed, or the last batch was short. *)
Lemma batchLoop_exit service wordTimings fuel st st' :
  batchLoop fuel service wordTimings st = Returned st' ->
  Z.of_nat (length wordTimings) <= startIndex st' \/
  exists ln, last (printed st') = Some ln /\ ln_total ln < batchSize.
Proof.
  revert st. induction fuel as [|fuel IH]; intros st; simpl.
  - destruct (_ <? _) eqn:Hguard; [done|]. apply Z.ltb_ge in Hguard.
    intros [= <-]. by left.
  - destruct (_ <? _) eqn:Hguard; [|apply Z.ltb_ge in Hguard; intros [= <-]; by left].
    pose proof (loopBody_inv service wordTimings st) as Hinv.
    destruct (loopBody service wordTimings st) as [st1|st1| |]; try done.
    + apply IH.
    + intros [= <-]. destruct Hinv as (endIndex & batch & ins & _ & _ & Hshort & ->).
      apply Z.ltb_lt in Hshort. right. simpl. rewrite last_snoc. eauto.
Qed.

(** C2, amended: for every word sequence and every service whose answer
    to a full batch of 300 words never has its last [st_id] at or before
    the start index of that batch, the batch loop terminates, within as
    many iterations as there are words; and a loop that returns has
    stopped because the start index reached the number of words or
    because the last batch was shorter than 300. *)
Theorem C2_terminates_when_advancing (c : Client) (MkdirAll : gostring -> OsResult)
    (service : Service) (wordTimings : list WordTiming) :
  (forall batchNum batch startIndex subtitleInputs,
     service batchNum batch startIndex = ReplyInputs subtitleInputs ->
     batchSize <= Z.of_nat (length batch) ->
     startIndex < lastWordIndex_of subtitleInputs startIndex) ->
  terminates c MkdirAll service wordTimings /\
  (forall fuel, (length wordTimings <= fuel)%nat ->
     CreateSubtitles c MkdirAll fuel service wordTimings <> OutOfFuel) /\
  (forall fuel st, batchLoop fuel service wordTimings initState = Returned st ->
     Z.of_nat (length wordTimings) <= startIndex st \/
     exists ln, last (printed st) = Some ln /\ ln_total ln < batchSize).
Proof.
  intros Hadv.
  assert (Hfuel : forall fuel, (length wordTimings <= fuel)%nat ->
            CreateSubtitles c MkdirAll fuel service wordTimings <> OutOfFuel).
  { intros fuel Hfuel. unfold CreateSubtitles.
    destruct (ensureDebugDir c MkdirAll); [done|].
    pose proof (batchLoop_enough_fuel service wordTimings Hadv fuel initState) as Hrun.
    destruct (batchLoop fuel service wordTimings initState); try done.
    exfalso. apply Hrun; [|done]. simpl. lia. }
  split; [exists (length wordTimings); by apply Hfuel|].
  split; [done|]. intros fuel st. apply batchLoop_exit.
Qed.

Lemma C2_terminates_when_advancing_witness :
  (forall batchNum batch startIndex subtitleInputs,
     service_whole_batch batchNum batch startIndex = ReplyInputs subtitleInputs ->
     batchSize <= Z.of_nat (length batch) ->
     startIndex < lastWordIndex_of subtitleInputs startIndex) /\
  terminates client_plain mkdir_ok service_whole_batch (words 700).
Proof.
  assert (Hadv : forall batchNum batch startIndex subtitleInputs,
     service_whole_batch batchNum batch startIndex = ReplyInputs subtitleInputs ->
     batchSize <= Z.of_nat (length batch) ->
     startIndex < lastWordIndex_of subtitleInputs startIndex).
  { intros batchNum batch startIndex subtitleInputs [= <-] Hfull.
    change (startIndex < startIndex + Z.of_nat (length batch)).
    unfold batchSize in Hfull. lia. }
  split; [exact Hadv|].
  exact (proj1 (C2_terminates_when_advancing client_plain mkdir_ok
                  service_whole_batch (words 700) Hadv)).
Defined.

(** ** Which ids the batches cover *)

Lemma ids_app a b c : a <= b -> b <= c -> ids a b ++ ids b c = ids a c.
Proof.
  intros Hab Hbc. unfold ids.
  replace (c - a) with ((b - a) + (c - b)) by lia.
  rewrite seqZ_app by lia. by replace (a + (b - a)) with b by lia.
Qed.

Lemma ids_empty a : ids a a = [].
Proof. unfold ids. by rewrite Z.sub_diag. Qed.

Lemma last_map_StartWordIndex (subtitleInputs : list SubtitleInput) :
  last (map StartWordIndex subtitleInputs) = StartWordIndex <$> last subtitleInputs.
Proof.
  induction subtitleInputs as [|c [|c' rest] IH]; [done..|]. exact IH.
Qed.

(** The next start index is the last [st_id] of a non-empty answer. *)
Lemma lastWordIndex_of_last subtitleInputs startIndex x :
  last (map StartWordIndex subtitleInputs) = Some x ->
  lastWordIndex_of subtitleInputs startIndex = x.
Proof.
  rewrite last_map_StartWordIndex, last_lookup. unfold lastWordIndex_of.
  destruct subtitleInputs as [|c rest]; [done|].
  rewrite (proj2 (Z.ltb_lt 0 _)) by (simpl; lia).
  replace (length (c :: rest) - 1)%nat with (pred (length (c :: rest))) by (simpl; lia).
  destruct ((c :: rest) !! pred (length (c :: rest))) as [lastSub|]; [|done].
  by intros [= <-].
Qed.

Lemma ascending_le_last a rest x :
  ascending (a :: rest) = true -> last (a :: rest) = Some x -> a <= x.
Proof.
  revert a. induction rest as [|b rest IH]; intros a Hasc Hlast.
  - injection Hlast as <-. lia.
  - cbn [ascending] in Hasc. apply andb_true_iff in Hasc as [Hab Hasc].
    apply Z.leb_le in Hab. specialize (IH b Hasc Hlast). lia.
Qed.

(** The subtitles of an answer in order consume the ids from the first
    [st_id] to the end of the batch. *)
Lemma subtitle_ids_ascending a rest batchEnd x :
  ascending (a :: rest) = true -> last (a :: rest) = Some x -> x <= batchEnd ->
  subtitle_ids (a :: rest) batchEnd = ids a batchEnd.
Proof.
  revert a. induction rest as [|b rest IH]; intros a Hasc Hlast Hend.
  - simpl. by rewrite app_nil_r.
  - pose proof Hasc as Hasc'. cbn [ascending] in Hasc'.
    apply andb_true_iff in Hasc' as [Hab Hrest]. apply Z.leb_le in Hab.
    pose proof (ascending_le_last b rest x Hrest Hlast) as Hbx.
    change (subtitle_ids (a :: b :: rest) batchEnd)
      with (ids a b ++ subtitle_ids (b :: rest) batchEnd).
    rewrite (IH b Hrest Hlast Hend). apply ids_app; lia.
Qed.

(** Without the trailing one they consume the ids up to its [st_id]. *)
Lemma subtitle_ids_leading a rest x :
  ascending (a :: rest) = true -> last (a :: rest) = Some x ->
  subtitle_ids (removelast (a :: rest)) x = ids a x.
Proof.
  revert a. induction rest as [|b rest IH]; intros a Hasc Hlast.
  - injection Hlast as <-. simpl. by rewrite ids_empty.
  - pose proof Hasc as Hasc'. cbn [ascending] in Hasc'.
    apply andb_true_iff in Hasc' as [Hab Hrest]. apply Z.leb_le in Hab.
    pose proof (ascending_le_last b rest x Hrest Hlast) as Hbx.
    specialize (IH b Hrest Hlast).
    change (removelast (a :: b :: rest)) with (a :: removelast (b :: rest)).
    destruct rest as [|c rest].
    + injection Hlast as <-. simpl. by rewrite app_nil_r.
    + change (removelast (b :: c :: rest)) with (b :: removelast (c :: rest)) in *.
      change (subtitle_ids (a :: b :: removelast (c :: rest)) x)
        with (ids a b ++ subtitle_ids (b :: removelast (c :: rest)) x).
      rewrite IH. apply ids_app; lia.
Qed.

(** What [follows_batch] says. *)
Lemma follows_batch_true startIndex batch subtitleInputs :
  follows_batch startIndex batch subtitleInputs = true ->
  exists rest,
    map StartWordIndex subtitleInputs = startIndex :: rest /\
    ascending (startIndex :: rest) = true /\
    last (startIndex :: rest) = Some (lastWordIndex_of subtitleInputs startIndex) /\
    startIndex <= lastWordIndex_of subtitleInputs startIndex
               <= startIndex + Z.of_nat (length batch).
Proof.
  unfold follows_batch.
  destruct (map StartWordIndex subtitleInputs) as [|a rest] eqn:Hstarts; [done|].
  intros [[Ha Hasc]%andb_true_iff Hend]%andb_true_iff.
  apply Z.eqb_eq in Ha. subst a. apply Z.leb_le in Hend.
  assert (Hlast : last (startIndex :: rest)
                  = Some (lastWordIndex_of subtitleInputs startIndex)).
  { destruct (last (startIndex :: rest)) as [x|] eqn:Hx.
    - f_equal. symmetry. apply lastWordIndex_of_last. by rewrite Hstarts.
    - by apply last_None in Hx. }
  exists rest. split; [done|]. split; [done|]. split; [done|].
  split; [|done]. by apply (ascending_le_last startIndex rest).
Qed.

(** A successful iteration: the line it prints stands for the slice it
    took and the answer it got; a batch shorter than 300 words ends with
    the last word. *)
Lemma loopBody_line service wordTimings st st' (short : bool) :
  loopBody service wordTimings st = (if short then Break st' else Continue st') ->
  exists ln batch subtitleInputs,
    printed st' = printed st ++ [ln] /\
    ln_first ln = startIndex st /\
    slice wordTimings (ln_first ln) (ln_last ln + 1) = Some batch /\
    service (ln_batch ln) batch (ln_first ln) = ReplyInputs subtitleInputs /\
    startIndex st' = lastWordIndex_of subtitleInputs (startIndex st) /\
    (short = true -> ln_last ln + 1 = Z.of_nat (length wordTimings)).
Proof.
  unfold loopBody.
  pose proof (wrap_range (startIndex st + batchSize)) as Hwrap.
  change (wrap (startIndex st + batchSize)) with (add64 (startIndex st) batchSize) in Hwrap.
  set (e0 := add64 (startIndex st) batchSize) in *.
  set (endIndex := if e0 >? Z.of_nat (length wordTimings)
                   then Z.of_nat (length wordTimings) else e0).
  destruct (slice wordTimings (startIndex st) endIndex) as [batch|] eqn:Hslice;
    [|by destruct short].
  unfold processBatch, parseBatchResponse.
  destruct (service (batchNum st) batch (startIndex st)) as [e|ins] eqn:Hreply;
    [by destruct short|].
  pose proof (slice_Some _ _ _ _ Hslice) as (Hlo & Hhi & Hlen).
  unfold int64, int_min, int_max in Hwrap.
  assert (Hcases : (Z.of_nat (length wordTimings) < e0 /\
                    endIndex = Z.of_nat (length wordTimings)) \/
                   (e0 <= Z.of_nat (length wordTimings) /\ endIndex = e0)).
  { unfold endIndex. rewrite Z.gtb_ltb.
    destruct (Z.ltb_spec (Z.of_nat (length wordTimings)) e0); [left|right]; done. }
  assert (Hsub : sub64 endIndex 1 = endIndex - 1).
  { apply wrap_small. unfold int64, int_min, int_max. lia. }
  assert (Hshort : Z.of_nat (length batch) < batchSize ->
                   endIndex = Z.of_nat (length wordTimings)).
  { intros Hs. destruct Hcases as [[_ ->]|[_ He0]]; [done|]. exfalso.
    assert (Hb : batchSize = 300) by reflexivity.
    destruct (Z.le_gt_cases (startIndex st + batchSize) int_max) as [Hfit|Hover].
    - assert (e0 = startIndex st + batchSize).
      { unfold e0, add64. apply wrap_small. unfold int64, int_min, int_max in *. lia. }
      lia.
    - assert (e0 = startIndex st + batchSize - 2 ^ 64).
      { unfold e0, add64. apply wrap_above. unfold int_max in *. lia. }
      lia. }
  intros Hbody.
  assert (Hst' : st' = {| allSubtitles := allSubtitles st ++ processSubtitles ins;
                          startIndex := lastWordIndex_of ins (startIndex st);
                          batchNum := add64 (batchNum st) 1;
                          printed := printed st ++
                            [{| ln_batch := batchNum st; ln_first := startIndex st;
                                ln_last := sub64 endIndex 1;
                                ln_total := Z.of_nat (length batch) |}] |} /\
                 (short = true -> Z.of_nat (length batch) < batchSize)).
  { destruct (Z.ltb_spec (Z.of_nat (length batch)) batchSize), short;
      try discriminate Hbody; by injection Hbody as <-. }
  destruct Hst' as [-> Hs].
  eexists _, batch, ins. split; [reflexivity|].
  cbn [printed startIndex ln_first ln_last ln_batch].
  rewrite Hsub. replace (endIndex - 1 + 1) with endIndex by lia.
  repeat split; try done. auto.
Qed.

(** A further line continues the chain. *)
Lemma chained_snoc service wordTimings lines ln batch subtitleInputs :
  forall first,
    chained service wordTimings first lines (ln_first ln) ->
    slice wordTimings (ln_first ln) (ln_last ln + 1) = Some batch ->
    service (ln_batch ln) batch (ln_first ln) = ReplyInputs subtitleInputs ->
    chained service wordTimings first (lines ++ [ln])
            (lastWordIndex_of subtitleInputs (ln_first ln)).
Proof.
  induction lines as [|l lines IH]; intros first Hchain Hslice Hreply.
  - simpl in Hchain. simpl. split; [done|]. by exists batch, subtitleInputs.
  - destruct Hchain as (Hfirst & b & ins & Hs & Hr & Hrest).
    simpl. split; [done|]. exists b, ins. split; [done|]. split; [done|].
    by apply IH.
Qed.

(** The lines of a run that returns are chained from index 0 to the
    final start index, and the run stopped past the last word or on a
    batch that ends with the last word. *)
Lemma batchLoop_chained service wordTimings fuel st :
  batchLoop fuel service wordTimings initState = Returned st ->
  chained service wordTimings 0 (printed st) (startIndex st) /\
  (Z.of_nat (length wordTimings) <= startIndex st \/
   exists ln, last (printed st) = Some ln /\
              ln_last ln + 1 = Z.of_nat (length wordTimings)).
Proof.
  apply (batchLoop_rule
           (fun st => chained service wordTimings 0 (printed st) (startIndex st))
           (fun st => chained service wordTimings 0 (printed st) (startIndex st) /\
              (Z.of_nat (length wordTimings) <= startIndex st \/
               exists ln, last (printed st) = Some ln /\
                          ln_last ln + 1 = Z.of_nat (length wordTimings)))).
  - intros s1 s2 HI _ Hbody.
    destruct (loopBody_line service wordTimings s1 s2 false Hbody)
      as (ln & batch & ins & -> & Hfirst & Hslice & Hreply & -> & _).
    rewrite <- Hfirst in *. by apply (chained_snoc _ _ _ _ batch).
  - intros s1 s2 HI _ Hbody.
    destruct (loopBody_line service wordTimings s1 s2 true Hbody)
      as (ln & batch & ins & -> & Hfirst & Hslice & Hreply & -> & Hend).
    rewrite <- Hfirst in *. split; [by apply (chained_snoc _ _ _ _ batch)|].
    right. exists ln. rewrite last_snoc. auto.
  - intros s1 HI Hguard. split; [done|]. by left.
  - done.
Qed.

(** Along a chain of answers that follow their batches, the subtitles of
    every batch consume the ids of its words. *)
Lemma chained_line_ids service wordTimings lines :
  forall first next,
    chained service wordTimings first lines next ->
    Forall (fun ln => follows_batch (ln_first ln) (line_batch wordTimings ln)
                        (line_inputs service wordTimings ln) = true) lines ->
    Forall (fun ln => line_ids service wordTimings ln
                      = ids (ln_first ln) (ln_last ln + 1)) lines.
Proof.
  induction lines as [|ln lines IH]; intros first next Hchain Hfollow; [done|].
  destruct Hchain as (Hfirst & batch & ins & Hslice & Hreply & Hrest).
  apply Forall_cons in Hfollow as [Hln Hfollow].
  constructor; [|by eapply IH].
  assert (Hbatch : line_batch wordTimings ln = batch).
  { unfold line_batch. by rewrite Hslice. }
  assert (Hinputs : line_inputs service wordTimings ln = ins).
  { unfold line_inputs. by rewrite Hbatch, Hreply. }
  rewrite Hinputs, Hbatch in Hln. unfold line_ids. rewrite Hinputs.
  apply slice_Some in Hslice as (Hlo & Hhi & Hlen).
  destruct (follows_batch_true _ _ _ Hln) as (rest & -> & Hasc & Hlast & Hle).
  apply (subtitle_ids_ascending _ _ _ _ Hasc Hlast). lia.
Qed.

(** ... and, following the continuation, the batches together consume
    the ids from the first start index to the last word, once each. *)
Lemma chained_continued_ids service wordTimings lines :
  forall first next,
    lines <> [] ->
    chained service wordTimings first lines next ->
    Forall (fun ln => follows_batch (ln_first ln) (line_batch wordTimings ln)
                        (line_inputs service wordTimings ln) = true) lines ->
    (Z.of_nat (length wordTimings) <= next \/
     exists ln, last lines = Some ln /\
                ln_last ln + 1 = Z.of_nat (length wordTimings)) ->
    continued_ids service wordTimings lines = ids first (Z.of_nat (length wordTimings)).
Proof.
  induction lines as [|ln lines IH]; intros first next Hne Hchain Hfollow Hexit; [done|].
  pose proof (chained_line_ids _ _ _ _ _ Hchain Hfollow) as Hids.
  apply Forall_cons in Hids as [Hids _].
  destruct Hchain as (Hfirst & batch & ins & Hslice & Hreply & Hrest).
  apply Forall_cons in Hfollow as [Hln Hfollow].
  assert (Hbatch : line_batch wordTimings ln = batch).
  { unfold line_batch. by rewrite Hslice. }
  assert (Hinputs : line_inputs service wordTimings ln = ins).
  { unfold line_inputs. by rewrite Hbatch, Hreply. }
  rewrite Hinputs, Hbatch in Hln.
  apply slice_Some in Hslice as (Hlo & Hhi & Hlen).
  destruct (follows_batch_true _ _ _ Hln) as (rest & Hstarts & Hasc & Hlast & Hle).
  subst first. destruct lines as [|ln' lines].
  - (* the last batch *)
    cbn [continued_ids]. rewrite app_nil_r, Hids. f_equal.
    simpl in Hrest. destruct Hexit as [Hpast|(l & [= <-] & Hend)]; [lia|done].
  - change (leading_ids service wordTimings ln
            ++ continued_ids service wordTimings (ln' :: lines)
            = ids (ln_first ln) (Z.of_nat (length wordTimings))).
    rewrite (IH _ next ltac:(done) Hrest Hfollow Hexit).
    unfold leading_ids. rewrite Hinputs, Hstarts.
    rewrite (subtitle_ids_leading _ _ _ Hasc Hlast).
    apply ids_app; lia.
Qed.

(** C3 fails on the code. In the scenario of 310 words the trailing
    candidate of the first batch ([st_id = 295]) is emitted with that
    batch, and the second batch starts at 295 again; the ids 295 to 299 are
    covered by subtitles of both batches, so the ids covered are not
    0, ..., 309 once each. And ids are skipped when an answer declares a
    last [st_id] beyond its batch: on 1000 words, after an answer to the
    first batch with [st_id = 5000] the loop stops; the words from 300 on
    were in no batch and no subtitle covers them. *)
Lemma C3_ids_covered_twice_or_skipped :
  (exists st ln1 ln2,
     batchLoop 2 service_310 (words 310) initState = Returned st /\
     printed st = [ln1; ln2] /\
     295 ∈ line_ids service_310 (words 310) ln1 /\
     295 ∈ line_ids service_310 (words 310) ln2 /\
     emitted_ids service_310 (words 310) (printed st) <> ids 0 310) /\
  (exists st,
     batchLoop 1 service_far_ahead (words 1000) initState = Returned st /\
     printed st = [mkBatchLine 1 0 299 300] /\
     999 ∉ emitted_ids service_far_ahead (words 1000) (printed st)).
Proof.
  split.
  - eexists _, _, _. split; [by vm_compute|]. split; [reflexivity|].
    split; [|split].
    + apply list_elem_of_lookup. exists 295%nat. by vm_compute.
    + apply list_elem_of_lookup. exists 0%nat. by vm_compute.
    + intros Heq. apply (f_equal length) in Heq. vm_compute in Heq. discriminate.
  - eexists. split; [by vm_compute|]. split; [reflexivity|].
    vm_compute. apply not_elem_of_nil.
Qed.

(** C3, amended: on every run of the batch loop that returns, when every
    answer received follows its batch (it has a candidate, and its
    [st_id] values begin at the start index of the batch, do not decrease
    and do not pass the end of the batch), the subtitles emitted for a
    batch consume exactly the ids of the words of that batch; and,
    leaving out the trailing subtitle of every batch but the last (the
    next batch starts again at its [st_id]), the id ranges consumed,
    concatenated over all batches, cover every WordTiming id exactly
    once and in order: none is covered twice and none is skipped. *)
Theorem C3_continued_ranges_cover (fuel : nat) (service : Service)
    (wordTimings : list WordTiming) (st : LoopState) :
  batchLoop fuel service wordTimings initState = Returned st ->
  Forall (fun ln => follows_batch (ln_first ln) (line_batch wordTimings ln)
                      (line_inputs service wordTimings ln) = true) (printed st) ->
  Forall (fun ln => line_ids service wordTimings ln
                    = ids (ln_first ln) (ln_last ln + 1)) (printed st) /\
  continued_ids service wordTimings (printed st)
  = ids 0 (Z.of_nat (length wordTimings)).
Proof.
  intros Hrun Hfollow.
  destruct (batchLoop_chained _ _ _ _ Hrun) as [Hchain Hexit].
  split; [by eapply chained_line_ids|].
  destruct (printed st) as [|ln lines] eqn:Hlines.
  - (* no batch: there is no word *)
    simpl in Hchain. destruct Hexit as [Hpast|(l & [=] & _)].
    unfold ids. rewrite seqZ_nil; [done|lia].
  - by apply (chained_continued_ids _ _ _ 0 (startIndex st)).
Qed.

Lemma C3_continued_ranges_cover_witness :
  batchLoop 2 service_310 (words 310) initState
    = Returned {| allSubtitles := [mkSubtitle 0 29400 (str "t");
                                   mkSubtitle 29500 31400 (str "t");
                                   mkSubtitle 29500 32400 (str "t")];
                  startIndex := 295; batchNum := 3;
                  printed := [mkBatchLine 1 0 299 300; mkBatchLine 2 295 309 15] |} /\
  Forall (fun ln => follows_batch (ln_first ln) (line_batch (words 310) ln)
                      (line_inputs service_310 (words 310) ln) = true)
         [mkBatchLine 1 0 299 300; mkBatchLine 2 295 309 15] /\
  continued_ids service_310 (words 310)
    [mkBatchLine 1 0 299 300; mkBatchLine 2 295 309 15]
  = ids 0 (Z.of_nat (length (words 310))).
Proof.
  assert (Hrun : batchLoop 2 service_310 (words 310) initState
    = Returned {| allSubtitles := [mkSubtitle 0 29400 (str "t");
                                   mkSubtitle 29500 31400 (str "t");
                                   mkSubtitle 29500 32400 (str "t")];
                  startIndex := 295; batchNum := 3;
                  printed := [mkBatchLine 1 0 299 300; mkBatchLine 2 295 309 15] |})
    by (vm_compute; reflexivity).
  assert (Hfollow : Forall (fun ln => follows_batch (ln_first ln) (line_batch (words 310) ln)
                      (line_inputs service_310 (words 310) ln) = true)
         [mkBatchLine 1 0 299 300; mkBatchLine 2 295 309 15])
    by (repeat constructor; vm_compute; reflexivity).
  split; [exact Hrun|]. split; [exact Hfollow|].
  exact (proj2 (C3_continued_ranges_cover 2 service_310 (words 310) _ Hrun Hfollow)).
Defined.

(** * Further properties of the client *)

Lemma sub64_100_exact_gen x k : int_min <= x - k <= int_max -> sub64 x k = x - k.
Proof. intros Hx. by apply wrap_small. Qed.

(** ** One iteration, computed

    A Go slice has at most [int_max] elements, and here even
    [len + 300] is a 64-bit value: the end index does not wrap. *)
Lemma loopBody_eval service wordTimings st :
  0 <= startIndex st < Z.of_nat (length wordTimings) ->
  Z.of_nat (length wordTimings) + batchSize <= int_max ->
  loopBody service wordTimings st =
  let endIndex := Z.min (startIndex st + batchSize) (Z.of_nat (length wordTimings)) in
  let batch := take (Z.to_nat (endIndex - startIndex st))
                    (drop (Z.to_nat (startIndex st)) wordTimings) in
  match service (batchNum st) batch (startIndex st) with
  | ReplyError e => Abort e
  | ReplyInputs subtitleInputs =>
      let st' := {| allSubtitles := allSubtitles st ++ processSubtitles subtitleInputs;
                    startIndex := lastWordIndex_of subtitleInputs (startIndex st);
                    batchNum := add64 (batchNum st) 1;
                    printed := printed st ++
                      [{| ln_batch := batchNum st; ln_first := startIndex st;
                          ln_last := endIndex - 1;
                          ln_total := endIndex - startIndex st |}] |} in
      if endIndex - startIndex st <? batchSize then Break st' else Continue st'
  end.
Proof.
  intros Hs Hmax. unfold loopBody, add64.
  assert (Hb : batchSize = 300) by reflexivity.
  rewrite wrap_small by (unfold int64, int_min, int_max in *; lia).
  set (N := Z.of_nat (length wordTimings)) in *.
  assert (Hend : (if startIndex st + batchSize >? N then N else startIndex st + batchSize)
                 = Z.min (startIndex st + batchSize) N).
  { rewrite Z.gtb_ltb. destruct (Z.ltb_spec N (startIndex st + batchSize)); lia. }
  rewrite Hend. set (endIndex := Z.min _ _). cbv zeta.
  assert (Hrange : startIndex st < endIndex <= N) by (unfold endIndex; lia).
  unfold slice. fold N.
  rewrite (proj2 (Z.leb_le 0 _)), (proj2 (Z.leb_le (startIndex st) _)),
    (proj2 (Z.leb_le endIndex N)) by lia.
  cbn [andb]. unfold processBatch, parseBatchResponse.
  destruct (service _ _ _) as [e|ins]; [done|].
  rewrite length_take, length_drop.
  replace (Z.of_nat (Z.to_nat (endIndex - startIndex st)
                     `min` (length wordTimings - Z.to_nat (startIndex st))))
    with (endIndex - startIndex st) by (unfold N in *; lia).
  rewrite (sub64_100_exact_gen endIndex 1) by (unfold int_min, int_max in *; lia).
  done.
Qed.

(** An iteration started at a negative index panics on the slice
    expression. *)
Lemma loopBody_negative service wordTimings st :
  startIndex st < 0 -> loopBody service wordTimings st = Panic.
Proof.
  intros Hneg. unfold loopBody, slice.
  by rewrite (proj2 (Z.leb_gt 0 (startIndex st))) by lia.
Qed.

(** What a completed iteration did, with the batch and its bounds spelled
    out ([short] tells whether it left by [break]). *)
Lemma loopBody_step service wordTimings st st' :
  Z.of_nat (length wordTimings) + batchSize <= int_max ->
  startIndex st < Z.of_nat (length wordTimings) ->
  loopBody service wordTimings st = Continue st' \/
  loopBody service wordTimings st = Break st' ->
  let endIndex := Z.min (startIndex st + batchSize) (Z.of_nat (length wordTimings)) in
  let batch := take (Z.to_nat (endIndex - startIndex st))
                    (drop (Z.to_nat (startIndex st)) wordTimings) in
  0 <= startIndex st /\
  exists subtitleInputs,
    service (batchNum st) batch (startIndex st) = ReplyInputs subtitleInputs /\
    st' = {| allSubtitles := allSubtitles st ++ processSubtitles subtitleInputs;
             startIndex := lastWordIndex_of subtitleInputs (startIndex st);
             batchNum := add64 (batchNum st) 1;
             printed := printed st ++
               [{| ln_batch := batchNum st; ln_first := startIndex st;
                   ln_last := endIndex - 1;
                   ln_total := endIndex - startIndex st |}] |} /\
    (loopBody service wordTimings st = Continue st' <->
     endIndex - startIndex st = batchSize).
Proof.
  intros Hmax Hguard Hbody endIndex batch.
  assert (Hs : 0 <= startIndex st).
  { destruct (Z.le_gt_cases 0 (startIndex st)) as [H|H]; [done|].
    rewrite loopBody_negative in Hbody by lia. by destruct Hbody. }
  split; [done|].
  pose proof (loopBody_eval service wordTimings st ltac:(lia) Hmax) as Heval.
  cbv zeta in Heval. fold endIndex in Heval. fold batch in Heval.
  assert (Hle : endIndex - startIndex st <= batchSize) by (unfold endIndex; lia).
  destruct (service (batchNum st) batch (startIndex st)) as [e|ins].
  { rewrite Heval in Hbody. by destruct Hbody. }
  exists ins. split; [done|].
  destruct (Z.ltb_spec (endIndex - startIndex st) batchSize) as [Hshort|Hfull];
    rewrite Heval in Hbody |- *.
  - destruct Hbody as [Hbody|Hbody]; [done|]. injection Hbody as <-.
    split; [done|]. split; [done|lia].
  - destruct Hbody as [Hbody|Hbody]; [|done]. injection Hbody as <-.
    split; [done|]. split; [lia|done].
Qed.

(** What the block of lines 55-60 comes to. *)
Lemma ensureDebugDir_None c MkdirAll :
  debugMode c = false \/ debugDir c = [] \/ MkdirAll (debugDir c) = OsOk ->
  ensureDebugDir c MkdirAll = None.
Proof.
  unfold ensureDebugDir. intros [-> | [-> | ->]]; [done|by rewrite andb_false_r|].
  by destruct (_ && _).
Qed.

Lemma ensureDebugDir_Some c MkdirAll e :
  ensureDebugDir c MkdirAll = Some e <->
  e = ErrDebugDir /\ debugMode c = true /\ debugDir c <> [] /\
  MkdirAll (debugDir c) = OsError.
Proof.
  unfold ensureDebugDir. split.
  - destruct (debugMode c); [|done]. destruct (debugDir c) as [|r dir] eqn:Hdir; [done|].
    cbn [andb negb length]. rewrite (proj2 (Z.eqb_neq _ 0)) by lia. cbn [negb].
    destruct (MkdirAll (r :: dir)); [done|]. by intros [= <-].
  - intros (-> & -> & Hdir & Hmk). destruct (debugDir c) as [|r dir] eqn:Hd; [done|].
    cbn [andb negb length]. rewrite (proj2 (Z.eqb_neq _ 0)) by lia. cbn [negb].
    by rewrite Hmk.
Qed.

(** X1: an input of fewer than 300 words (and at least one) is handled
    in one batch, whatever the service declares as its last [st_id].
    Unless the client is in debug mode and its debug directory cannot be
    created, the service is called once, with all the words, batch number
    1 and start index 0; its error is the error of the run, and otherwise
    the track is the global pass over the reconciled candidates of that
    one answer. In debug mode with a directory that cannot be created the
    run returns "failed to create debug directory", whatever the service
    would answer. *)
Theorem X1_short_input_single_batch (c : Client) (MkdirAll : gostring -> OsResult)
    (fuel : nat) (service : Service) (wordTimings : list WordTiming) :
  0 < Z.of_nat (length wordTimings) < batchSize ->
  (debugMode c = false \/ debugDir c = [] \/ MkdirAll (debugDir c) = OsOk ->
   CreateSubtitles c MkdirAll (S fuel) service wordTimings =
   match service 1 wordTimings 0 with
   | ReplyError e => Failed e
   | ReplyInputs subtitleInputs =>
       Returned (fixTransitions (processSubtitles subtitleInputs))
   end) /\
  (debugMode c = true -> debugDir c <> [] -> MkdirAll (debugDir c) = OsError ->
   CreateSubtitles c MkdirAll (S fuel) service wordTimings = Failed ErrDebugDir).
Proof.
  intros Hlen. split.
  2: { intros Hmode Hdir Hmk. unfold CreateSubtitles.
       by rewrite (proj2 (ensureDebugDir_Some c MkdirAll ErrDebugDir)). }
  intros Hdebug. unfold CreateSubtitles.
  rewrite (ensureDebugDir_None _ _ Hdebug). rewrite batchLoop_unfold.
  cbn [startIndex initState]. rewrite (proj2 (Z.ltb_lt 0 _)) by lia.
  rewrite loopBody_eval
    by (cbn [startIndex initState]; unfold batchSize, int_max in *; lia).
  cbn [startIndex initState batchNum allSubtitles printed]. cbv zeta.
  replace (Z.min (0 + batchSize) (Z.of_nat (length wordTimings)))
    with (Z.of_nat (length wordTimings)) by lia.
  rewrite Z.sub_0_r, Nat2Z.id. change (Z.to_nat 0) with 0%nat.
  rewrite drop_0, firstn_all.
  destruct (service 1 wordTimings 0) as [e|ins]; [done|].
  by rewrite (proj2 (Z.ltb_lt _ _)) by lia.
Qed.

Lemma X1_short_input_single_batch_witness :
  0 < Z.of_nat (length (words 2)) < batchSize /\
  CreateSubtitles client_plain mkdir_ok 1 service_close_starts (words 2)
  = Returned (fixTransitions (processSubtitles [cand 0 1000 0; cand 1 1050 0])).
Proof.
  assert (Hlen : 0 < Z.of_nat (length (words 2)) < batchSize) by (vm_compute; done).
  split; [exact Hlen|].
  exact (proj1 (X1_short_input_single_batch client_plain mkdir_ok 0
                  service_close_starts (words 2) Hlen) (or_introl eq_refl)).
Defined.

(** An iteration aborts only with the error of its service call. *)
Lemma loopBody_Abort service wordTimings st e :
  loopBody service wordTimings st = Abort e ->
  exists endIndex batch,
    slice wordTimings (startIndex st) endIndex = Some batch /\
    service (batchNum st) batch (startIndex st) = ReplyError e.
Proof.
  unfold loopBody. set (endIndex := if _ >? _ then _ else _).
  destruct (slice wordTimings (startIndex st) endIndex) as [batch|] eqn:Hslice; [|done].
  unfold processBatch, parseBatchResponse.
  destruct (service (batchNum st) batch (startIndex st)) as [e'|ins] eqn:Hreply.
  - intros [= <-]. eauto.
  - by destruct (_ <? batchSize).
Qed.

Lemma batchLoop_Failed service wordTimings fuel st e :
  batchLoop fuel service wordTimings st = Failed e ->
  exists batchNum startIndex endIndex batch,
    slice wordTimings startIndex endIndex = Some batch /\
    service batchNum batch startIndex = ReplyError e.
Proof.
  revert st. induction fuel as [|fuel IH]; intros st; rewrite batchLoop_unfold;
    destruct (_ <? _); try done.
  destruct (loopBody service wordTimings st) as [st'|st'|e'|] eqn:Hbody; try done.
  - apply IH.
  - intros [= <-]. apply loopBody_Abort in Hbody as (endIndex & batch & ? & ?). eauto 6.
Qed.

(** X2: where the errors of a run come from. An error returned by
    CreateSubtitles is "failed to create debug directory" (the client is
    in debug mode with a debug directory that MkdirAll could not create)
    or the error of a call made for some slice of the words; and when the
    call of an iteration fails, the loop returns that error, whatever
    subtitles the earlier batches gave. *)
Theorem X2_errors_of_a_run (c : Client) (MkdirAll : gostring -> OsResult)
    (fuel : nat) (service : Service) (wordTimings : list WordTiming) :
  (forall e, CreateSubtitles c MkdirAll fuel service wordTimings = Failed e ->
     (e = ErrDebugDir /\ debugMode c = true /\ debugDir c <> [] /\
      MkdirAll (debugDir c) = OsError) \/
     exists batchNum startIndex endIndex batch,
       slice wordTimings startIndex endIndex = Some batch /\
       service batchNum batch startIndex = ReplyError e) /\
  (forall st e,
     0 <= startIndex st < Z.of_nat (length wordTimings) ->
     Z.of_nat (length wordTimings) + batchSize <= int_max ->
     service (batchNum st)
       (take (Z.to_nat (Z.min (startIndex st + batchSize) (Z.of_nat (length wordTimings))
                        - startIndex st))
             (drop (Z.to_nat (startIndex st)) wordTimings))
       (startIndex st) = ReplyError e ->
     batchLoop (S fuel) service wordTimings st = Failed e).
Proof.
  split.
  - intros e. unfold CreateSubtitles.
    destruct (ensureDebugDir c MkdirAll) as [err|] eqn:Hdebug.
    { intros [= <-]. left. by apply ensureDebugDir_Some. }
    destruct (batchLoop fuel service wordTimings initState) eqn:Hrun; try done.
    intros [= <-]. right. by eapply batchLoop_Failed.
  - intros st e Hs Hmax Hreply. rewrite batchLoop_unfold.
    rewrite (proj2 (Z.ltb_lt _ _)) by lia.
    rewrite loopBody_eval by done. cbv zeta. by rewrite Hreply.
Qed.

Lemma X2_errors_of_a_run_witness :
  0 <= startIndex initState < Z.of_nat (length (words 2)) /\
  Z.of_nat (length (words 2)) + batchSize <= int_max /\
  batchLoop 1 (fun _ _ _ => ReplyError ErrNoContent) (words 2) initState
  = Failed ErrNoContent.
Proof.
  assert (Hs : 0 <= startIndex initState < Z.of_nat (length (words 2)))
    by (vm_compute; split; congruence).
  assert (Hmax : Z.of_nat (length (words 2)) + batchSize <= int_max)
    by (vm_compute; congruence).
  split; [exact Hs|]. split; [exact Hmax|].
  exact (proj2 (X2_errors_of_a_run client_plain mkdir_ok 0
                  (fun _ _ _ => ReplyError ErrNoContent)
                  (words 2)) initState ErrNoContent Hs Hmax eq_refl).
Defined.

Lemma batchLoop_Panicked service wordTimings fuel st :
  Z.of_nat (length wordTimings) + batchSize <= int_max ->
  0 <= startIndex st ->
  batchLoop fuel service wordTimings st = Panicked ->
  exists batchNum startIndex batch subtitleInputs,
    service batchNum batch startIndex = ReplyInputs subtitleInputs /\
    Z.of_nat (length batch) = batchSize /\
    lastWordIndex_of subtitleInputs startIndex < 0.
Proof.
  intros Hmax. revert st. induction fuel as [|fuel IH]; intros st Hs;
    rewrite batchLoop_unfold; destruct (_ <? _) eqn:Hguard; try done.
  apply Z.ltb_lt in Hguard.
  destruct (loopBody service wordTimings st) as [st'|st'|e'|] eqn:Hbody; try done.
  - (* the iteration ran to its end: the panic is later *)
    intros Hlater.
    destruct (loopBody_step service wordTimings st st' Hmax Hguard (or_introl Hbody))
      as (_ & ins & Hreply & -> & Hfull).
    apply proj1 in Hfull. specialize (Hfull Hbody).
    destruct (Z.le_gt_cases 0 (lastWordIndex_of ins (startIndex st))) as [Hnext|Hnext].
    + by apply IH in Hlater.
    + eexists _, _, _, ins. split; [exact Hreply|]. split; [|done].
      rewrite length_take, length_drop. unfold batchSize in *. lia.
  - (* in bounds the slice expression does not panic *)
    rewrite loopBody_eval in Hbody by (try done; lia). cbv zeta in Hbody.
    destruct (service _ _ _); [done|]. by destruct (_ <? _).
Qed.

(** X3: the only run-time panic of CreateSubtitles is the slice
    expression on a negative start index. A run that panics was handed a
    negative last [st_id] in the answer to a full batch of 300 words; and
    when a full batch is answered so, the next iteration panics. *)
Theorem X3_panic_on_negative_st_id (c : Client) (MkdirAll : gostring -> OsResult)
    (fuel : nat) (service : Service) (wordTimings : list WordTiming) :
  Z.of_nat (length wordTimings) + batchSize <= int_max ->
  (CreateSubtitles c MkdirAll fuel service wordTimings = Panicked ->
   exists batchNum startIndex batch subtitleInputs,
     service batchNum batch startIndex = ReplyInputs subtitleInputs /\
     Z.of_nat (length batch) = batchSize /\
     lastWordIndex_of subtitleInputs startIndex < 0) /\
  (forall st subtitleInputs,
     0 <= startIndex st ->
     startIndex st + batchSize <= Z.of_nat (length wordTimings) ->
     service (batchNum st)
       (take (Z.to_nat batchSize) (drop (Z.to_nat (startIndex st)) wordTimings))
       (startIndex st) = ReplyInputs subtitleInputs ->
     lastWordIndex_of subtitleInputs (startIndex st) < 0 ->
     batchLoop (S (S fuel)) service wordTimings st = Panicked).
Proof.
  intros Hmax. split.
  - unfold CreateSubtitles. destruct (ensureDebugDir c MkdirAll); [done|].
    destruct (batchLoop fuel service wordTimings initState) eqn:Hrun; try done.
    intros _. eapply batchLoop_Panicked; [exact Hmax| |exact Hrun]. cbn. lia.
  - intros st ins Hs Hfull Hreply Hneg. rewrite batchLoop_unfold.
    rewrite (proj2 (Z.ltb_lt _ _)) by (unfold batchSize in *; lia).
    destruct (loopBody_full_batch service wordTimings st ins) as (st' & -> & Hst');
      try done; [unfold batchSize in *; lia|].
    rewrite batchLoop_unfold, Hst'.
    rewrite (proj2 (Z.ltb_lt _ _)) by lia.
    by rewrite loopBody_negative by lia.
Qed.

Lemma X3_panic_on_negative_st_id_witness :
  Z.of_nat (length (words 300)) + batchSize <= int_max /\
  0 <= startIndex initState /\
  startIndex initState + batchSize <= Z.of_nat (length (words 300)) /\
  lastWordIndex_of [cand (-1) 0 0] (startIndex initState) < 0 /\
  batchLoop 2 (fun _ _ _ => ReplyInputs [cand (-1) 0 0]) (words 300) initState = Panicked.
Proof.
  assert (Hmax : Z.of_nat (length (words 300)) + batchSize <= int_max)
    by (vm_compute; congruence).
  assert (Hs : 0 <= startIndex initState) by (vm_compute; congruence).
  assert (Hfull : startIndex initState + batchSize <= Z.of_nat (length (words 300)))
    by (vm_compute; congruence).
  assert (Hneg : lastWordIndex_of [cand (-1) 0 0] (startIndex initState) < 0)
    by (vm_compute; reflexivity).
  split; [exact Hmax|]. split; [exact Hs|]. split; [exact Hfull|]. split; [exact Hneg|].
  exact (proj2 (X3_panic_on_negative_st_id client_plain mkdir_ok 0
                  (fun _ _ _ => ReplyInputs [cand (-1) 0 0])
                  (words 300) Hmax) initState [cand (-1) 0 0] Hs Hfull eq_refl Hneg).
Defined.

(** X4: every batch of a run that returns is a non-empty window of at
    most 300 words inside the word list (the printed "words a to b
    (total: n)" has 0 <= a <= b < N and n = b - a + 1 between 1 and 300),
    and every batch but the last has exactly 300 words. *)
Theorem X4_batches_within_bounds (fuel : nat) (service : Service)
    (wordTimings : list WordTiming) (st : LoopState) :
  Z.of_nat (length wordTimings) + batchSize <= int_max ->
  batchLoop fuel service wordTimings initState = Returned st ->
  Forall (fun ln => 0 <= ln_first ln /\
                    ln_last ln < Z.of_nat (length wordTimings) /\
                    ln_total ln = ln_last ln - ln_first ln + 1 /\
                    1 <= ln_total ln <= batchSize) (printed st) /\
  (forall i ln, printed st !! i = Some ln -> (S i < length (printed st))%nat ->
     ln_total ln = batchSize).
Proof.
  intros Hmax.
  set (ok := fun ln => 0 <= ln_first ln /\
                       ln_last ln < Z.of_nat (length wordTimings) /\
                       ln_total ln = ln_last ln - ln_first ln + 1 /\
                       1 <= ln_total ln <= batchSize).
  assert (Hnew : forall s, 0 <= s < Z.of_nat (length wordTimings) -> forall bn,
            ok {| ln_batch := bn; ln_first := s;
                  ln_last := Z.min (s + batchSize) (Z.of_nat (length wordTimings)) - 1;
                  ln_total := Z.min (s + batchSize) (Z.of_nat (length wordTimings)) - s |}).
  { intros s Hs bn. unfold ok, batchSize. simpl. lia. }
  apply (batchLoop_rule
           (fun st => Forall ok (printed st) /\
                      Forall (fun ln => ln_total ln = batchSize) (printed st))
           (fun st => Forall ok (printed st) /\
                      forall i ln, printed st !! i = Some ln ->
                        (S i < length (printed st))%nat -> ln_total ln = batchSize)).
  - intros s1 s2 [Hok Hfull] Hguard Hbody.
    destruct (loopBody_step service wordTimings s1 s2 Hmax Hguard (or_introl Hbody))
      as (Hs & ins & _ & -> & Hcont). simpl.
    split; apply Forall_app; split; try done; apply Forall_singleton.
    + apply Hnew. lia.
    + simpl. by apply Hcont.
  - intros s1 s2 [Hok Hfull] Hguard Hbody.
    destruct (loopBody_step service wordTimings s1 s2 Hmax Hguard (or_intror Hbody))
      as (Hs & ins & _ & -> & _). simpl. split.
    + apply Forall_app. split; [done|]. apply Forall_singleton. apply Hnew. lia.
    + intros i ln Hi Hlast. rewrite length_app in Hlast. simpl in Hlast.
      rewrite lookup_app_l in Hi by lia.
      rewrite Forall_forall in Hfull. apply Hfull. by eapply list_elem_of_lookup_2.
  - intros s1 [Hok Hfull] _. split; [done|]. intros i ln Hi _.
    rewrite Forall_forall in Hfull. apply Hfull. by eapply list_elem_of_lookup_2.
  - split; constructor.
Qed.

Lemma X4_batches_within_bounds_witness :
  Z.of_nat (length (words 310)) + batchSize <= int_max /\
  batchLoop 2 service_310 (words 310) initState
  = Returned {| allSubtitles := [mkSubtitle 0 29400 (str "t");
                                 mkSubtitle 29500 31400 (str "t");
                                 mkSubtitle 29500 32400 (str "t")];
                startIndex := 295; batchNum := 3;
                printed := [mkBatchLine 1 0 299 300; mkBatchLine 2 295 309 15] |} /\
  Forall (fun ln => 0 <= ln_first ln /\
                    ln_last ln < Z.of_nat (length (words 310)) /\
                    ln_total ln = ln_last ln - ln_first ln + 1 /\
                    1 <= ln_total ln <= batchSize)
         [mkBatchLine 1 0 299 300; mkBatchLine 2 295 309 15].
Proof.
  assert (Hmax : Z.of_nat (length (words 310)) + batchSize <= int_max)
    by (vm_compute; congruence).
  assert (Hrun : batchLoop 2 service_310 (words 310) initState
    = Returned {| allSubtitles := [mkSubtitle 0 29400 (str "t");
                                   mkSubtitle 29500 31400 (str "t");
                                   mkSubtitle 29500 32400 (str "t")];
                  startIndex := 295; batchNum := 3;
                  printed := [mkBatchLine 1 0 299 300; mkBatchLine 2 295 309 15] |})
    by (vm_compute; reflexivity).
  split; [exact Hmax|]. split; [exact Hrun|].
  exact (proj1 (X4_batches_within_bounds 2 service_310 (words 310) _ Hmax Hrun)).
Defined.

(** The start and the text of every subtitle go through both stages. *)
Lemma processSubtitles_start_text subtitleInputs :
  (fun s => (StartMs s, Text s)) <$> processSubtitles subtitleInputs
  = (fun c => (inStartMs c, inText c)) <$> subtitleInputs.
Proof.
  unfold processSubtitles. rewrite fmap_imap.
  rewrite <- (imap_const (fun c => (inStartMs c, inText c))). by apply imap_ext.
Qed.

Lemma clampEnds_start_text track :
  (fun s => (StartMs s, Text s)) <$> clampEnds track
  = (fun s => (StartMs s, Text s)) <$> track.
Proof.
  induction track as [|prev rest IH]; [done|].
  cbn [clampEnds]. rewrite !fmap_cons, IH.
  by destruct (clampEnd_frame prev (head rest)) as [-> ->].
Qed.

Lemma slice_eval {A} (s : list A) lo hi :
  0 <= lo <= hi -> hi <= Z.of_nat (length s) ->
  slice s lo hi = Some (take (Z.to_nat (hi - lo)) (drop (Z.to_nat lo) s)).
Proof.
  intros Hlo Hhi. unfold slice.
  by rewrite (proj2 (Z.leb_le 0 lo)), (proj2 (Z.leb_le lo hi)),
    (proj2 (Z.leb_le hi _)) by lia.
Qed.

(** X5: the track CreateSubtitles returns holds one subtitle for every
    candidate of every answer, batch after batch and in the order of the
    answers, each with the [st_ms] and the [text] of its candidate;
    nothing is dropped or merged at a batch seam, so the trailing
    candidate of a batch and the candidates the next batch makes of the
    same words are all in the track. *)
Theorem X5_track_holds_every_candidate (c : Client) (MkdirAll : gostring -> OsResult)
    (fuel : nat) (service : Service)
    (wordTimings : list WordTiming) (track : list Subtitle) :
  Z.of_nat (length wordTimings) + batchSize <= int_max ->
  CreateSubtitles c MkdirAll fuel service wordTimings = Returned track ->
  exists st,
    batchLoop fuel service wordTimings initState = Returned st /\
    (fun s => (StartMs s, Text s)) <$> track
    = concat (map (fun ln => (fun c => (inStartMs c, inText c))
                               <$> line_inputs service wordTimings ln)
                  (printed st)).
Proof.
  intros Hmax (st & Hrun & ->)%CreateSubtitles_Returned.
  exists st. split; [done|]. rewrite clampEnds_start_text.
  revert Hrun.
  set (I := fun st : LoopState =>
              (fun s => (StartMs s, Text s)) <$> allSubtitles st
              = concat (map (fun ln => (fun c => (inStartMs c, inText c))
                                         <$> line_inputs service wordTimings ln)
                            (printed st))).
  assert (Hstep : forall s1 s2, I s1 ->
            startIndex s1 < Z.of_nat (length wordTimings) ->
            loopBody service wordTimings s1 = Continue s2 \/
            loopBody service wordTimings s1 = Break s2 -> I s2).
  { intros s1 s2 HI Hguard Hbody.
    destruct (loopBody_step service wordTimings s1 s2 Hmax Hguard Hbody)
      as (Hs & ins & Hreply & -> & _).
    unfold I in *. simpl.
    rewrite fmap_app, HI, processSubtitles_start_text, map_app, concat_app.
    f_equal. simpl. rewrite app_nil_r. f_equal.
    unfold line_inputs, line_batch. simpl.
    assert (Hb : batchSize = 300) by reflexivity.
    rewrite slice_eval by lia.
    replace (Z.min (startIndex s1 + batchSize) (Z.of_nat (length wordTimings)) - 1 + 1
             - startIndex s1)
      with (Z.min (startIndex s1 + batchSize) (Z.of_nat (length wordTimings))
            - startIndex s1) by lia.
    simpl. by rewrite Hreply. }
  apply (batchLoop_rule I I); eauto. done.
Qed.

Lemma X5_track_holds_every_candidate_witness :
  Z.of_nat (length (words 310)) + batchSize <= int_max /\
  CreateSubtitles client_plain mkdir_ok 2 service_310 (words 310)
    = Returned [mkSubtitle 0 29400 (str "t"); mkSubtitle 29500 29400 (str "t");
                mkSubtitle 29500 32400 (str "t")] /\
  exists st,
    batchLoop 2 service_310 (words 310) initState = Returned st /\
    (fun s => (StartMs s, Text s))
      <$> [mkSubtitle 0 29400 (str "t"); mkSubtitle 29500 29400 (str "t");
           mkSubtitle 29500 32400 (str "t")]
    = concat (map (fun ln => (fun c => (inStartMs c, inText c))
                               <$> line_inputs service_310 (words 310) ln)
                  (printed st)).
Proof.
  assert (Hmax : Z.of_nat (length (words 310)) + batchSize <= int_max)
    by (vm_compute; congruence).
  assert (Hrun : CreateSubtitles client_plain mkdir_ok 2 service_310 (words 310)
    = Returned [mkSubtitle 0 29400 (str "t"); mkSubtitle 29500 29400 (str "t");
                mkSubtitle 29500 32400 (str "t")]) by (vm_compute; reflexivity).
  split; [exact Hmax|]. split; [exact Hrun|].
  exact (X5_track_holds_every_candidate client_plain mkdir_ok 2 service_310 (words 310)
           _ Hmax Hrun).
Defined.

(** ** More on the per-batch reconciler *)

Lemma reconcile_lookup plus minus cands i :
  Spec.reconcile plus minus cands !! i =
  (fun c => {| StartMs := inStartMs c;
               EndMs := Spec.force_minimum plus minus (inStartMs c)
                          (Spec.clamp_to_next minus (Spec.tentative_end plus c)
                                              (cands !! S i));
               Text := inText c |}) <$> cands !! i.
Proof.
  revert i. induction cands as [|c rest IH]; intros i; [done|].
  destruct i as [|i]; simpl; [by destruct rest|apply IH].
Qed.

(** In integers the third step is a maximum. *)
Lemma force_minimum_max start_ms e :
  Spec.force_minimum Z.add Z.sub start_ms e = Z.max (start_ms + 1000) e.
Proof.
  unfold Spec.force_minimum.
  destruct (e <=? start_ms) eqn:Hle; [apply Z.leb_le in Hle|apply Z.leb_gt in Hle]; simpl.
  - lia.
  - destruct (e - start_ms <? 1000) eqn:Hspan;
      [apply Z.ltb_lt in Hspan|apply Z.ltb_ge in Hspan]; lia.
Qed.

(** The end of the subtitle at index [i], on timestamps in range. *)
Lemma processSubtitles_end inputSubtitles i c s :
  Forall input_in_ms_range inputSubtitles ->
  inputSubtitles !! i = Some c ->
  processSubtitles inputSubtitles !! i = Some s ->
  StartMs s = inStartMs c /\
  EndMs s = Z.max (inStartMs c + 1000)
              (Spec.clamp_to_next Z.sub (Spec.tentative_end Z.add c)
                                  (inputSubtitles !! S i)).
Proof.
  intros Hrange Hc Hs.
  rewrite processSubtitles_reconcile, reconcile_exact, reconcile_lookup, Hc in Hs by done.
  simpl in Hs. injection Hs as <-. simpl. by rewrite force_minimum_max.
Qed.

(** X6: inside a batch (timestamps in range) a subtitle ends at most at
    the later of its own start plus 1000 and the next start minus 100.
    So it leaves the 100 ms gap whenever the next candidate starts at
    least 1100 ms after it, and it runs into the next subtitle only when
    that one starts less than 1000 ms after it. *)
Theorem X6_gap_to_next_in_batch (inputSubtitles : list SubtitleInput) (i : nat)
    (c next : SubtitleInput) (s : Subtitle) :
  Forall input_in_ms_range inputSubtitles ->
  inputSubtitles !! i = Some c ->
  inputSubtitles !! S i = Some next ->
  processSubtitles inputSubtitles !! i = Some s ->
  EndMs s <= Z.max (inStartMs c + 1000) (inStartMs next - 100) /\
  (inStartMs c + 1100 <= inStartMs next -> EndMs s <= inStartMs next - 100) /\
  (inStartMs next < EndMs s -> inStartMs next < inStartMs c + 1000).
Proof.
  intros Hrange Hc Hn Hs.
  destruct (processSubtitles_end _ _ _ _ Hrange Hc Hs) as [_ ->].
  rewrite Hn. simpl. unfold Spec.min_with_infinity, Spec.or_infinity.
  destruct (_ =? 0); lia.
Qed.

Lemma X6_gap_to_next_in_batch_witness :
  Forall input_in_ms_range [cand 0 1000 1900; cand 4 3000 3500] /\
  processSubtitles [cand 0 1000 1900; cand 4 3000 3500] !! 0%nat
    = Some (mkSubtitle 1000 2900 (str "t")) /\
  EndMs (mkSubtitle 1000 2900 (str "t")) <= inStartMs (cand 4 3000 3500) - 100.
Proof.
  assert (Hr : Forall input_in_ms_range [cand 0 1000 1900; cand 4 3000 3500])
    by (repeat constructor; vm_compute; congruence).
  assert (Hs : processSubtitles [cand 0 1000 1900; cand 4 3000 3500] !! 0%nat
               = Some (mkSubtitle 1000 2900 (str "t"))) by reflexivity.
  split; [exact Hr|]. split; [exact Hs|].
  refine (proj1 (proj2 (X6_gap_to_next_in_batch _ 0%nat (cand 0 1000 1900)
                          (cand 4 3000 3500) _ Hr eq_refl eq_refl Hs)) _).
  vm_compute. congruence.
Defined.

(** X7: how long a subtitle stays (timestamps in range). With a
    last-word time ([lw_ms > 0]) it ends no later than 1500 ms after that
    word starts, unless the 1000 ms minimum asks for more; the last
    subtitle of a batch ends exactly at the later of the two; and the last
    subtitle of a batch without a last-word time lasts exactly 1000 ms
    (for a start at or after -1000). *)
Theorem X7_display_time_after_last_word (inputSubtitles : list SubtitleInput) (i : nat)
    (c : SubtitleInput) (s : Subtitle) :
  Forall input_in_ms_range inputSubtitles ->
  inputSubtitles !! i = Some c ->
  processSubtitles inputSubtitles !! i = Some s ->
  (0 < LastWordStartMs c ->
   EndMs s <= Z.max (inStartMs c + 1000) (LastWordStartMs c + 1500)) /\
  (0 < LastWordStartMs c -> inputSubtitles !! S i = None ->
   EndMs s = Z.max (inStartMs c + 1000) (LastWordStartMs c + 1500)) /\
  (LastWordStartMs c <= 0 -> -1000 <= inStartMs c -> inputSubtitles !! S i = None ->
   EndMs s = inStartMs c + 1000).
Proof.
  intros Hrange Hc Hs.
  destruct (processSubtitles_end _ _ _ _ Hrange Hc Hs) as [_ ->].
  unfold Spec.tentative_end. repeat split.
  - intros Hlw. rewrite (proj2 (Z.ltb_lt _ _)) by done.
    destruct (inputSubtitles !! S i) as [n|]; simpl; [|lia].
    unfold Spec.min_with_infinity, Spec.or_infinity.
    rewrite (proj2 (Z.eqb_neq _ _)) by lia. lia.
  - intros Hlw ->. by rewrite (proj2 (Z.ltb_lt _ _)) by done.
  - intros Hlw Hst ->. rewrite (proj2 (Z.ltb_ge _ _)) by done. simpl. lia.
Qed.

Lemma X7_display_time_after_last_word_witness :
  Forall input_in_ms_range [cand 0 1000 1900; cand 4 3000 0] /\
  processSubtitles [cand 0 1000 1900; cand 4 3000 0] !! 1%nat
    = Some (mkSubtitle 3000 4000 (str "t")) /\
  EndMs (mkSubtitle 3000 4000 (str "t")) = inStartMs (cand 4 3000 0) + 1000.
Proof.
  assert (Hr : Forall input_in_ms_range [cand 0 1000 1900; cand 4 3000 0])
    by (repeat constructor; vm_compute; congruence).
  assert (Hs : processSubtitles [cand 0 1000 1900; cand 4 3000 0] !! 1%nat
               = Some (mkSubtitle 3000 4000 (str "t"))) by reflexivity.
  split; [exact Hr|]. split; [exact Hs|].
  refine (proj2 (proj2 (X7_display_time_after_last_word _ 1%nat (cand 4 3000 0) _
                          Hr eq_refl Hs)) _ _ eq_refl); vm_compute; congruence.
Defined.

(** ** More on the post-processing pass *)

Lemma clampEnds_stable track :
  Forall (fun s => int_min + 100 <= StartMs s <= int_max) track ->
  clampEnds (clampEnds track) = clampEnds track.
Proof.
  induction 1 as [|prev rest Hprev Hrest IH]; [done|].
  cbn [clampEnds]. rewrite IH. f_equal.
  destruct rest as [|cur rest']; [done|].
  cbn [clampEnds head]. inversion Hrest as [|?? Hcur _]; subst.
  cbn [clampEnd]. rewrite (proj1 (clampEnd_frame cur (head rest'))).
  destruct (EndMs prev >? StartMs cur) eqn:Hgt.
  - simpl. rewrite sub64_100_exact by done.
    rewrite Z.gtb_ltb, (proj2 (Z.ltb_ge _ _)) by lia. done.
  - by rewrite Hgt.
Qed.

(** X8: the global pass settles the track: run on its own output it
    changes nothing (start times at least 100 above the least 64-bit
    integer). One pass is enough since it only compares an end with the
    start that follows, and starts never move. *)
Theorem X8_pass_is_idempotent (track : list Subtitle) :
  Forall (fun s => int_min + 100 <= StartMs s <= int_max) track ->
  fixTransitions (fixTransitions track) = fixTransitions track.
Proof.
  intros Hbounds. rewrite !fixTransitions_clampEnds. by apply clampEnds_stable.
Qed.

Lemma X8_pass_is_idempotent_witness :
  Forall (fun s => int_min + 100 <= StartMs s <= int_max)
    [mkSubtitle 1000 2000 (str "a"); mkSubtitle 1050 2050 (str "b")] /\
  fixTransitions (fixTransitions [mkSubtitle 1000 2000 (str "a"); mkSubtitle 1050 2050 (str "b")])
  = fixTransitions [mkSubtitle 1000 2000 (str "a"); mkSubtitle 1050 2050 (str "b")].
Proof.
  assert (Hr : Forall (fun s => int_min + 100 <= StartMs s <= int_max)
                 [mkSubtitle 1000 2000 (str "a"); mkSubtitle 1050 2050 (str "b")])
    by (repeat constructor; vm_compute; congruence).
  split; [exact Hr|]. exact (X8_pass_is_idempotent _ Hr).
Defined.

(** ** More on cleaning the response text *)

Lemma trimLeftSpace_app_keep u c v :
  isSpace c = false -> trimLeftSpace (u ++ c :: v) = trimLeftSpace u ++ c :: v.
Proof.
  intros Hc. induction u as [|r u IH]; simpl; [by rewrite Hc|].
  by destruct (isSpace r).
Qed.

Lemma trimLeftSpace_spaces ws :
  Forall (fun r => isSpace r = true) ws -> trimLeftSpace ws = [].
Proof. induction 1 as [|r ws Hr _ IH]; [done|]. simpl. by rewrite Hr. Qed.

Lemma TrimSpace_left_right s : TrimSpace s = trimRightSpace (trimLeftSpace s).
Proof. reflexivity. Qed.

(** Trimming on the right of a text that has a non-space in it. *)
Lemma trimRightSpace_app_keep u c v :
  isSpace c = false -> trimRightSpace (u ++ c :: v) = u ++ c :: trimRightSpace v.
Proof.
  intros Hc. unfold trimRightSpace.
  rewrite rev_app_distr. simpl. rewrite <- app_assoc. simpl.
  rewrite trimLeftSpace_app_keep by done.
  rewrite rev_app_distr. simpl. rewrite rev_involutive, <- app_assoc. done.
Qed.

Lemma trimRightSpace_idemp s : trimRightSpace (trimRightSpace s) = trimRightSpace s.
Proof. unfold trimRightSpace. by rewrite rev_involutive, trimLeftSpace_idemp. Qed.

(** Both ends can be trimmed in either order. *)
Lemma trim_left_right_comm s :
  trimLeftSpace (trimRightSpace s) = trimRightSpace (trimLeftSpace s).
Proof.
  destruct (trimLeftSpace_split s) as (ws & Hs & Hws).
  destruct (trimLeftSpace s) as [|c y] eqn:Hy.
  - rewrite app_nil_r in Hs. subst ws.
    assert (Hall : trimRightSpace s = []).
    { unfold trimRightSpace. rewrite trimLeftSpace_spaces; [done|].
      by apply Forall_rev. }
    by rewrite Hall.
  - assert (Hc : isSpace c = false) by (apply (trimmed_head c y); by rewrite <- Hy, trimLeftSpace_idemp).
    rewrite Hs at 1. rewrite trimRightSpace_app_keep, trimLeftSpace_app_keep by done.
    rewrite (trimLeftSpace_spaces ws Hws). simpl.
    symmetry. apply (trimRightSpace_app_keep [] c y Hc).
Qed.

Lemma TrimSpace_trimRightSpace s : TrimSpace (trimRightSpace s) = TrimSpace s.
Proof.
  by rewrite !TrimSpace_left_right, trim_left_right_comm, trimRightSpace_idemp.
Qed.

(** A text that opens with the "```json" fence keeps it under TrimSpace. *)
Lemma TrimSpace_after_fence_json u :
  TrimSpace (fence_json ++ u) = fence_json ++ trimRightSpace u.
Proof.
  rewrite TrimSpace_left_right.
  change (fence_json ++ u) with (96 :: str "``jso" ++ 110 :: u).
  rewrite trimLeftSpace_keep by done.
  change (96 :: str "``jso" ++ 110 :: u) with (str "```jso" ++ 110 :: u).
  by rewrite trimRightSpace_app_keep.
Qed.

Lemma no_backquote_trimRightSpace s : no_backquote s -> no_backquote (trimRightSpace s).
Proof.
  unfold no_backquote, trimRightSpace. intros Hs. apply Forall_rev.
  destruct (trimLeftSpace_split (rev s)) as (ws & Hsplit & _).
  assert (Hrev : Forall (fun r => r <> 96) (ws ++ trimLeftSpace (rev s)))
    by (rewrite <- Hsplit; by apply Forall_rev).
  by apply Forall_app in Hrev as [_ ?].
Qed.

Lemma HasPrefix_fence_plain c s : c <> 96 -> HasPrefix (c :: s) fence = false.
Proof.
  intros Hc. change (HasPrefix (c :: s) fence) with ((c =? 96) && HasPrefix s (str "``")).
  by rewrite (proj2 (Z.eqb_neq c 96)).
Qed.

Lemma LastIndex_no_backquote s : no_backquote s -> LastIndex s fence = -1.
Proof.
  induction 1 as [|c s Hc _ IH]; [done|].
  cbn [LastIndex]. rewrite IH. simpl (0 <=? -1). cbv iota.
  by rewrite HasPrefix_fence_plain.
Qed.

(** After a closing fence followed by text without backquotes, the
    closing fence is the last one. *)
Lemma LastIndex_fence_then_plain s : no_backquote s -> LastIndex (fence ++ s) fence = 0.
Proof.
  intros Hs. pose proof (LastIndex_no_backquote s Hs) as Hnone.
  assert (Hp1 : HasPrefix (96 :: s) fence = false).
  { destruct Hs as [|c s' Hc _]; [done|].
    change (HasPrefix (96 :: c :: s') fence)
      with (true && ((c =? 96) && HasPrefix s' (str "`"))).
    by rewrite (proj2 (Z.eqb_neq c 96)). }
  assert (Hp2 : HasPrefix (96 :: 96 :: s) fence = false).
  { destruct Hs as [|c s' Hc _]; [done|].
    change (HasPrefix (96 :: 96 :: c :: s') fence)
      with (true && (true && ((c =? 96) && true))).
    by rewrite (proj2 (Z.eqb_neq c 96)). }
  assert (H1 : LastIndex (96 :: s) fence = -1).
  { cbn [LastIndex]. rewrite Hnone. simpl (0 <=? -1). cbv iota. by rewrite Hp1. }
  assert (H2 : LastIndex (96 :: 96 :: s) fence = -1).
  { change (LastIndex (96 :: 96 :: s) fence)
      with (let later := LastIndex (96 :: s) fence in
            if 0 <=? later then later + 1
            else if HasPrefix (96 :: 96 :: s) fence then 0 else -1).
    rewrite H1. cbv zeta. change (0 <=? -1) with false. cbv iota. by rewrite Hp2. }
  change (LastIndex (fence ++ s) fence)
    with (let later := LastIndex (96 :: 96 :: s) fence in
          if 0 <=? later then later + 1
          else if HasPrefix (96 :: 96 :: 96 :: s) fence then 0 else -1).
  by rewrite H2.
Qed.

Lemma LastIndex_app_found t u substr :
  0 <= LastIndex u substr ->
  LastIndex (t ++ u) substr = Z.of_nat (length t) + LastIndex u substr.
Proof.
  intros Hu. induction t as [|c t IH]; [simpl; lia|].
  simpl app. cbn [LastIndex]. rewrite IH.
  rewrite (proj2 (Z.leb_le _ _)) by lia. simpl length. lia.
Qed.

(** X9: whatever follows the closing fence is thrown away with it: for a
    text [t] between "```json" and "```", followed by any text without
    backquotes (a remark of the model after the code block), the cleaned
    content is [t] trimmed. *)
Theorem X9_text_after_closing_fence_dropped (t rest : gostring) :
  no_backquote rest ->
  cleanJsonContent (fence_json ++ t ++ fence ++ rest) = TrimSpace t.
Proof.
  intros Hrest. unfold cleanJsonContent.
  replace (fence_json ++ t ++ fence ++ rest)
    with (fence_json ++ (t ++ str "``") ++ 96 :: rest).
  2: { rewrite <- !app_assoc. done. }
  assert (Htrim : TrimSpace (fence_json ++ (t ++ str "``") ++ 96 :: rest)
                  = fence_json ++ t ++ fence ++ trimRightSpace rest).
  { rewrite TrimSpace_after_fence_json, trimRightSpace_app_keep by done.
    by rewrite <- !app_assoc. }
  rewrite Htrim, HasPrefix_app, TrimPrefix_app.
  assert (Hlast : LastIndex (fence ++ trimRightSpace rest) fence = 0)
    by (by apply LastIndex_fence_then_plain, no_backquote_trimRightSpace).
  rewrite LastIndex_app_found by (rewrite Hlast; lia).
  rewrite Hlast.
  rewrite (proj2 (Z.eqb_neq _ _)) by lia. simpl negb. cbv iota.
  by rewrite Z.add_0_r, Nat2Z.id, take_app_length.
Qed.

Lemma X9_text_after_closing_fence_dropped_witness :
  no_backquote (str " Done.") /\
  cleanJsonContent (fence_json ++ str " [1] " ++ fence ++ str " Done.")
  = TrimSpace (str " [1] ").
Proof.
  assert (Hr : no_backquote (str " Done."))
    by (repeat constructor; vm_compute; congruence).
  split; [exact Hr|]. exact (X9_text_after_closing_fence_dropped (str " [1] ") _ Hr).
Defined.

(** X10: an answer that opens with "```json" and never closes the fence
    (cut short, say) still loses the opening fence: for a text [t] without
    backquotes, the cleaned content of "```json" followed by [t] is [t]
    trimmed. *)
Theorem X10_unclosed_fence_is_stripped (t : gostring) :
  no_backquote t ->
  cleanJsonContent (fence_json ++ t) = TrimSpace t.
Proof.
  intros Ht. unfold cleanJsonContent.
  rewrite TrimSpace_after_fence_json, HasPrefix_app, TrimPrefix_app.
  rewrite LastIndex_no_backquote by (by apply no_backquote_trimRightSpace).
  simpl. apply TrimSpace_trimRightSpace.
Qed.

Lemma X10_unclosed_fence_is_stripped_witness :
  no_backquote (str " [1, 2") /\
  cleanJsonContent (fence_json ++ str " [1, 2") = TrimSpace (str " [1, 2").
Proof.
  assert (Ht : no_backquote (str " [1, 2"))
    by (repeat constructor; vm_compute; congruence).
  split; [exact Ht|]. exact (X10_unclosed_fence_is_stripped _ Ht).
Defined.

(** * The parser *)

(** ** Reading a number *)

Lemma numeral_value_from ds n :
  fold_left (fun n d => n * 10 + d) ds n
  = n * 10 ^ Z.of_nat (length ds) + numeral_value ds.
Proof.
  unfold numeral_value. revert n. induction ds as [|d ds IH]; intros n.
  - simpl. lia.
  - cbn [fold_left length]. rewrite IH, (IH (0 * 10 + d)).
    rewrite Nat2Z.inj_succ, Z.pow_succ_r by lia. lia.
Qed.

Lemma numeral_value_nonneg ds :
  Forall (fun d => 0 <= d <= 9) ds -> 0 <= numeral_value ds.
Proof.
  unfold numeral_value.
  assert (H : forall n, 0 <= n -> Forall (fun d => 0 <= d <= 9) ds ->
                        0 <= fold_left (fun n d => n * 10 + d) ds n).
  { induction ds as [|d ds IH]; intros n Hn Hds; [done|].
    inversion Hds; subst. cbn [fold_left]. apply IH; [lia|done]. }
  intros Hds. by apply H.
Qed.

(** Digits that stay below [2^64] are read without error. *)
Lemma parseUintFrom_numeral ds n :
  Forall (fun d => 0 <= d <= 9) ds -> 0 <= n ->
  fold_left (fun n d => n * 10 + d) ds n <= maxUint64 ->
  parseUintFrom (numeral ds) n = (fold_left (fun n d => n * 10 + d) ds n, None).
Proof.
  intros Hds. revert n. induction Hds as [|d ds Hd Hds IH]; intros n Hn Hmax; [done|].
  cbn [fold_left] in *. unfold numeral. rewrite fmap_cons. fold (numeral ds).
  cbn [parseUintFrom]. unfold isDigit.
  rewrite (proj2 (Z.leb_le 48 _)), (proj2 (Z.leb_le _ 57)) by lia. cbn [andb].
  pose proof (numeral_value_from ds (n * 10 + d)) as Hfrom.
  pose proof (numeral_value_nonneg ds Hds) as Hpos.
  assert (Hpow : 1 <= 10 ^ Z.of_nat (length ds)) by (apply Z.pow_le_mono_r with (b := 0); lia).
  assert (Hn1 : n * 10 + d <= maxUint64) by nia.
  unfold maxUint64 in *.
  rewrite Z.geb_leb, (proj2 (Z.leb_gt _ _)) by (change (2 ^ 64 - 1) with 18446744073709551615 in *; change (18446744073709551615 / 10) with 1844674407370955161; lia).
  replace (n * 10 + (48 + d - 48)) with (n * 10 + d) by lia.
  rewrite Z.gtb_ltb, (proj2 (Z.ltb_ge _ _)) by lia.
  by apply IH; [lia|].
Qed.

Lemma numeral_head ds : digits ds -> exists c s, numeral ds = c :: s /\ isDigit c = true.
Proof.
  intros [Hne Hds]. destruct Hds as [|d ds Hd _]; [done|].
  exists (48 + d), (numeral ds). split; [done|]. unfold isDigit.
  by rewrite (proj2 (Z.leb_le 48 _)), (proj2 (Z.leb_le _ 57)) by lia.
Qed.

(** Atoi reads a numeral that fits an [int] as its value. *)
Lemma Atoi_numeral ds :
  digits ds -> numeral_value ds <= int_max -> Atoi (numeral ds) = (numeral_value ds, None).
Proof.
  intros Hd Hmax. destruct (numeral_head ds Hd) as (c & s & Hcs & Hc).
  destruct Hd as [Hne Hds].
  unfold Atoi, ParseInt. rewrite Hcs.
  unfold isDigit in Hc. apply andb_true_iff in Hc as [Hc1 Hc2].
  apply Z.leb_le in Hc1, Hc2.
  rewrite (proj2 (Z.eqb_neq c 43)), (proj2 (Z.eqb_neq c 45)) by lia. cbn [orb].
  unfold ParseUint. rewrite <- Hcs.
  rewrite parseUintFrom_numeral; [|done|lia|].
  2: { fold (numeral_value ds). unfold maxUint64, int_max in *. lia. }
  fold (numeral_value ds). cbv zeta. cbn [negb andb].
  rewrite Z.geb_leb, (proj2 (Z.leb_gt _ _)) by (unfold int_max in *; lia).
  done.
Qed.

(** A text that is no number gives 0 and a syntax error. *)
Lemma Atoi_not_a_number s : not_a_number s -> Atoi s = (0, Some ErrSyntax).
Proof.
  destruct s as [|c s]; [done|]. intros (Hd & H43 & H45).
  unfold Atoi, ParseInt.
  rewrite (proj2 (Z.eqb_neq c 43)), (proj2 (Z.eqb_neq c 45)) by done. cbn [orb].
  unfold ParseUint. cbn [parseUintFrom]. by rewrite Hd.
Qed.

(** ** Extracting the words *)

Lemma wrap_add_l a b : wrap (wrap a + b) = wrap (a + b).
Proof.
  destruct (wrap_multiple a) as [k ->].
  replace (a + k * 2 ^ 64 + b) with (a + b + k * 2 ^ 64) by lia. apply wrap_shift.
Qed.

(** What the loops keep true of the slice and the counter: the counter
    is the length of the slice, and the word at index [i] has id [i]
    (both as 64-bit values). *)
Lemma extractSentence_numbered paragraphTime wordTimings wordID sentence :
  wordID = wrap (Z.of_nat (length wordTimings)) ->
  (forall i w, wordTimings !! i = Some w -> ID w = wrap (Z.of_nat i)) ->
  let acc := extractSentence paragraphTime (wordTimings, wordID) sentence in
  snd acc = wrap (Z.of_nat (length (fst acc))) /\
  (forall i w, fst acc !! i = Some w -> ID w = wrap (Z.of_nat i)).
Proof.
  intros Hid Hids. unfold extractSentence.
  destruct (TrimSpace (sText sentence)) as [|r word]; [done|]. cbn [fst snd].
  split.
  - rewrite length_app. simpl length. rewrite Hid. unfold add64.
    rewrite wrap_add_l. f_equal. lia.
  - intros i w Hw. destruct (decide (i < length wordTimings)%nat) as [Hlt|Hge].
    + rewrite lookup_app_l in Hw by done. by apply Hids.
    + rewrite lookup_app_r in Hw by lia.
      destruct (i - length wordTimings)%nat as [|j] eqn:Hj; [|done].
      injection Hw as <-. simpl. rewrite Hid. f_equal. lia.
Qed.

Lemma extractSentences_numbered paragraphTime sentences acc :
  snd acc = wrap (Z.of_nat (length (fst acc))) ->
  (forall i w, fst acc !! i = Some w -> ID w = wrap (Z.of_nat i)) ->
  let acc' := fold_left (extractSentence paragraphTime) sentences acc in
  snd acc' = wrap (Z.of_nat (length (fst acc'))) /\
  (forall i w, fst acc' !! i = Some w -> ID w = wrap (Z.of_nat i)).
Proof.
  revert acc. induction sentences as [|s ss IH]; intros [ws wid] Hid Hids; [done|].
  cbn [fold_left]. simpl in Hid, Hids.
  destruct (extractSentence_numbered paragraphTime ws wid s Hid Hids) as [H1 H2].
  by apply IH.
Qed.

Lemma ExtractWordTimings_numbered timedText i w :
  ExtractWordTimings timedText !! i = Some w -> ID w = wrap (Z.of_nat i).
Proof.
  unfold ExtractWordTimings.
  assert (H : forall ps acc,
            snd acc = wrap (Z.of_nat (length (fst acc))) ->
            (forall i w, fst acc !! i = Some w -> ID w = wrap (Z.of_nat i)) ->
            let acc' := fold_left extractParagraph ps acc in
            snd acc' = wrap (Z.of_nat (length (fst acc'))) /\
            (forall i w, fst acc' !! i = Some w -> ID w = wrap (Z.of_nat i))).
  { induction ps as [|p ps IH]; intros acc Hid Hids; [done|].
    cbn [fold_left]. apply IH; unfold extractParagraph;
      destruct (_ =? 0); try done; by apply extractSentences_numbered. }
  apply (H (Paragraphs (tBody timedText)) ([], 0)); [done|].
  intros j w' Hw'. done.
Qed.

(** X11: the extracted words are numbered by their position: the
    [id] of the word at index [i] is [i], so the ids are 0, 1, 2, ... in
    document order (for a slice of at most [int_max] words, as every Go
    slice is). *)
Theorem X11_ids_are_positions (timedText : TimedText) :
  Z.of_nat (length (ExtractWordTimings timedText)) <= int_max ->
  ID <$> ExtractWordTimings timedText
  = seqZ 0 (Z.of_nat (length (ExtractWordTimings timedText))).
Proof.
  intros Hlen. apply list_eq. intros i.
  rewrite list_lookup_fmap.
  destruct (ExtractWordTimings timedText !! i) as [w|] eqn:Hw; simpl.
  - pose proof (lookup_lt_Some _ _ _ Hw) as Hi.
    rewrite lookup_seqZ_lt by lia.
    rewrite (ExtractWordTimings_numbered _ _ _ Hw).
    rewrite wrap_small by (unfold int64, int_min, int_max in *; lia). f_equal; lia.
  - apply lookup_ge_None in Hw. by rewrite lookup_seqZ_ge by lia.
Qed.

Example extract_document :
  ExtractWordTimings document
  = [mkWordTiming 0 (str "Hello") 1000; mkWordTiming 1 (str "world") 1500;
     mkWordTiming 2 (str "again") 3000].
Proof. reflexivity. Qed.

Lemma X11_ids_are_positions_witness :
  Z.of_nat (length (ExtractWordTimings document)) <= int_max /\
  ID <$> ExtractWordTimings document
  = seqZ 0 (Z.of_nat (length (ExtractWordTimings document))).
Proof.
  assert (Hlen : Z.of_nat (length (ExtractWordTimings document)) <= int_max)
    by (vm_compute; congruence).
  split; [exact Hlen|]. exact (X11_ids_are_positions document Hlen).
Defined.

Lemma extractSentences_fragments paragraph wordTimings wordID :
  (fun w => (Word w, StartTime w))
    <$> fst (fold_left (extractSentence (fst (Atoi (pTime paragraph))))
                       (Sentences paragraph) (wordTimings, wordID))
  = ((fun w => (Word w, StartTime w)) <$> wordTimings)
    ++ omap (fragment paragraph) (Sentences paragraph).
Proof.
  revert wordTimings wordID.
  induction (Sentences paragraph) as [|s ss IH]; intros ws wid.
  - simpl. by rewrite app_nil_r.
  - cbn [fold_left omap list_omap]. unfold extractSentence at 2, fragment at 1.
    destruct (TrimSpace (sText s)) as [|r word] eqn:Hword.
    + apply IH.
    + rewrite IH, fmap_app, <- app_assoc. done.
Qed.

Lemma extractParagraphs_fragments paragraphs acc :
  (fun w => (Word w, StartTime w)) <$> fst (fold_left extractParagraph paragraphs acc)
  = ((fun w => (Word w, StartTime w)) <$> fst acc)
    ++ concat (map (fun p => omap (fragment p) (Sentences p)) paragraphs).
Proof.
  revert acc. induction paragraphs as [|p ps IH]; intros [ws wid].
  - simpl. by rewrite app_nil_r.
  - cbn [fold_left map concat]. rewrite IH. unfold extractParagraph.
    destruct (Z.of_nat (length (Sentences p)) =? 0) eqn:Hlen.
    + apply Z.eqb_eq in Hlen. destruct (Sentences p); [|simpl in Hlen; lia].
      done.
    + rewrite extractSentences_fragments. by rewrite <- app_assoc.
Qed.

Lemma ExtractWordTimings_fragments timedText :
  (fun w => (Word w, StartTime w)) <$> ExtractWordTimings timedText
  = fragments timedText.
Proof. unfold ExtractWordTimings. by rewrite extractParagraphs_fragments. Qed.

(** X12: the extracted words are the fragments of the document whose
    text is not blank, in document order: one word per such fragment,
    with the trimmed text and, as start time, the paragraph's time plus
    the fragment's (as 64-bit sum of what Atoi returns for the two
    attributes). Blank fragments and paragraphs without fragments give
    no word. *)
Theorem X12_words_are_the_nonblank_fragments (timedText : TimedText) :
  (fun w => (Word w, StartTime w)) <$> ExtractWordTimings timedText
  = concat (map (fun p => omap (fragment p) (Sentences p))
                (Paragraphs (tBody timedText))).
Proof. apply ExtractWordTimings_fragments. Qed.

(** X13: every extracted word is non-empty and has no white space at
    its beginning or end. *)
Theorem X13_words_are_trimmed_and_nonempty (timedText : TimedText) :
  Forall (fun w => Word w <> [] /\ trimmed (Word w)) (ExtractWordTimings timedText).
Proof.
  assert (Hfrag : Forall (fun f : gostring * Z => f.1 <> [] /\ trimmed f.1)
                         (fragments timedText)).
  { unfold fragments. apply Forall_concat, Forall_forall.
    intros l (p & <- & _)%list_elem_of_In%in_map_iff.
    apply Forall_forall. intros f (s & _ & Hf)%list_elem_of_omap.
    unfold fragment in Hf. destruct (TrimSpace (sText s)) as [|r word] eqn:Hw; [done|].
    injection Hf as <-. simpl. split; [done|]. rewrite <- Hw. apply trimmed_TrimSpace. }
  rewrite <- ExtractWordTimings_fragments in Hfrag.
  by apply Forall_fmap in Hfrag.
Qed.

(** X16: extraction gives no word exactly when every fragment of the
    document is blank (a document without paragraphs, or with
    paragraphs without fragments, is such a document). *)
Theorem X16_no_words_iff_all_blank (timedText : TimedText) :
  ExtractWordTimings timedText = [] <->
  (forall p s, p ∈ Paragraphs (tBody timedText) -> s ∈ Sentences p ->
               TrimSpace (sText s) = []).
Proof.
  assert (Heq : ExtractWordTimings timedText = [] <-> fragments timedText = []).
  { rewrite <- ExtractWordTimings_fragments. split; [by intros ->|apply fmap_nil_inv]. }
  rewrite Heq. unfold fragments. split.
  - intros Hnil p s Hp Hs.
    destruct (TrimSpace (sText s)) as [|r word] eqn:Hw; [done|]. exfalso.
    assert (Hin : (TrimSpace (sText s),
                   add64 (fst (Atoi (pTime p))) (fst (Atoi (sTime s))))
                  ∈ concat (map (fun p => omap (fragment p) (Sentences p))
                                (Paragraphs (tBody timedText)))).
    { apply list_elem_of_In, in_concat. exists (omap (fragment p) (Sentences p)).
      split; [apply in_map_iff; exists p; by rewrite <- list_elem_of_In|].
      apply list_elem_of_In, list_elem_of_omap. exists s. split; [done|].
      unfold fragment. by rewrite Hw. }
    rewrite Hnil in Hin. by apply not_elem_of_nil in Hin.
  - intros Hblank. apply concat_nil_Forall, Forall_forall.
    intros l (p & <- & Hp%list_elem_of_In)%list_elem_of_In%in_map_iff.
    destruct (omap (fragment p) (Sentences p)) as [|f fs] eqn:Hf; [done|]. exfalso.
    assert (Hin : f ∈ omap (fragment p) (Sentences p)) by (rewrite Hf; left).
    apply list_elem_of_omap in Hin as (s & Hs & Hfs).
    unfold fragment in Hfs. by rewrite (Hblank p s Hp Hs) in Hfs.
Qed.

Lemma X16_no_words_iff_all_blank_witness :
  ExtractWordTimings
    {| tBody := {| Paragraphs :=
         [mkParagraph (str "0") (str "") (str "") (str "") (str "")
            [mkSentence (str "0") (str "") (str "  ")]] |} |} = [].
Proof.
  apply (proj2 (X16_no_words_iff_all_blank
    {| tBody := {| Paragraphs :=
         [mkParagraph (str "0") (str "") (str "") (str "") (str "")
            [mkSentence (str "0") (str "") (str "  ")]] |} |})).
  intros p s Hp Hs. cbn [tBody Paragraphs] in Hp.
  apply list_elem_of_singleton in Hp. subst p. cbn [Sentences] in Hs.
  apply list_elem_of_singleton in Hs. subst s. reflexivity.
Defined.

(** Every non-blank fragment has its word. *)
Lemma fragment_extracted timedText p s :
  p ∈ Paragraphs (tBody timedText) -> s ∈ Sentences p ->
  TrimSpace (sText s) <> [] ->
  exists w, w ∈ ExtractWordTimings timedText /\
            Word w = TrimSpace (sText s) /\
            StartTime w = add64 (fst (Atoi (pTime p))) (fst (Atoi (sTime s))).
Proof.
  intros Hp Hs Hword.
  assert (Hin : (TrimSpace (sText s),
                 add64 (fst (Atoi (pTime p))) (fst (Atoi (sTime s))))
                ∈ fragments timedText).
  { apply list_elem_of_In, in_concat. exists (omap (fragment p) (Sentences p)).
    split; [apply in_map_iff; exists p; by rewrite <- list_elem_of_In|].
    apply list_elem_of_In, list_elem_of_omap. exists s. split; [done|].
    unfold fragment. by destruct (TrimSpace (sText s)). }
  rewrite <- ExtractWordTimings_fragments in Hin.
  apply list_elem_of_fmap in Hin as (w & Hw & Hin). exists w.
  injection Hw as Hw1 Hw2. by rewrite Hw1, Hw2.
Qed.

Lemma parseUintFrom_nonneg s n : 0 <= n -> 0 <= fst (parseUintFrom s n).
Proof.
  revert n. induction s as [|c s IH]; intros n Hn; [done|].
  cbn [parseUintFrom]. unfold isDigit.
  destruct (48 <=? c) eqn:Hc; [apply Z.leb_le in Hc|done]. cbn [andb].
  destruct (c <=? 57); [|done].
  destruct (n >=? _); [done|]. cbv zeta. destruct (_ >? maxUint64); [done|].
  apply IH. lia.
Qed.

(** What Atoi returns is an [int]. *)
Lemma Atoi_int64 s : int64 (fst (Atoi s)).
Proof.
  unfold Atoi, ParseInt, int64, int_min, int_max. destruct s as [|c s]; [simpl; lia|].
  cbv zeta. set (s1 := if _ || _ then s else c :: s).
  assert (Hun : 0 <= fst (ParseUint s1)).
  { unfold ParseUint. destruct s1; [done|]. by apply parseUintFrom_nonneg. }
  destruct (ParseUint s1) as [un [[]|]]; simpl in *; try lia.
  all: destruct (c =? 45); cbn [negb andb];
    repeat match goal with
           | |- context [?a >=? ?b] => rewrite (Z.geb_leb a b); destruct (Z.leb_spec b a)
           | |- context [?a >? ?b] => rewrite (Z.gtb_ltb a b); destruct (Z.ltb_spec b a)
           end; simpl; lia.
Qed.

(** X14: the start time of a word is the paragraph's time plus the
    fragment's: when both attributes are decimal numerals and the sum is
    an [int], the word made of a non-blank fragment starts at the sum of
    the two values. *)
Theorem X14_start_is_paragraph_plus_fragment (timedText : TimedText)
    (p : Paragraph) (s : Sentence) (dp dsx : list Z) :
  p ∈ Paragraphs (tBody timedText) -> s ∈ Sentences p ->
  TrimSpace (sText s) <> [] ->
  digits dp -> pTime p = numeral dp ->
  digits dsx -> sTime s = numeral dsx ->
  numeral_value dp + numeral_value dsx <= int_max ->
  exists w, w ∈ ExtractWordTimings timedText /\
            Word w = TrimSpace (sText s) /\
            StartTime w = numeral_value dp + numeral_value dsx.
Proof.
  intros Hp Hs Hword Hdp Hpt Hds Hst Hsum.
  destruct (fragment_extracted timedText p s Hp Hs Hword) as (w & Hw & Hword' & Hstart).
  exists w. split; [done|]. split; [done|].
  pose proof (numeral_value_nonneg dp (proj2 Hdp)).
  pose proof (numeral_value_nonneg dsx (proj2 Hds)).
  rewrite Hstart, Hpt, Hst, !Atoi_numeral by (done || lia). simpl.
  apply wrap_small. unfold int64, int_min, int_max in *. lia.
Qed.

Lemma X14_start_is_paragraph_plus_fragment_witness :
  exists w, w ∈ ExtractWordTimings document /\
            Word w = TrimSpace (str " world ") /\
            StartTime w = numeral_value [1; 0; 0; 0] + numeral_value [5; 0; 0].
Proof.
  refine (X14_start_is_paragraph_plus_fragment document
            (mkParagraph (str "1000") (str "") (str "") (str "") (str "")
               [ mkSentence (str "0") (str "") (str "Hello");
                 mkSentence (str "500") (str "") (str " world ");
                 mkSentence (str "900") (str "") (str "  ") ])
            (mkSentence (str "500") (str "") (str " world "))
            [1; 0; 0; 0] [5; 0; 0] _ _ _ _ eq_refl _ eq_refl _).
  - left.
  - right. left.
  - vm_compute. congruence.
  - split; [congruence|]. repeat constructor; lia.
  - split; [congruence|]. repeat constructor; lia.
  - vm_compute. congruence.
Defined.

(** X15: an attribute that is no number counts as 0 (Atoi's error is
    dropped): for a paragraph time that is empty or starts with neither a
    digit nor a sign, the word starts at the fragment's own time; for such
    a fragment time, at the paragraph's time. *)
Theorem X15_malformed_time_counts_as_zero (timedText : TimedText)
    (p : Paragraph) (s : Sentence) :
  p ∈ Paragraphs (tBody timedText) -> s ∈ Sentences p ->
  TrimSpace (sText s) <> [] ->
  (not_a_number (pTime p) ->
   exists w, w ∈ ExtractWordTimings timedText /\ Word w = TrimSpace (sText s) /\
             StartTime w = fst (Atoi (sTime s))) /\
  (not_a_number (sTime s) ->
   exists w, w ∈ ExtractWordTimings timedText /\ Word w = TrimSpace (sText s) /\
             StartTime w = fst (Atoi (pTime p))).
Proof.
  intros Hp Hs Hword.
  destruct (fragment_extracted timedText p s Hp Hs Hword) as (w & Hw & Hword' & Hstart).
  split; intros Hnot; exists w; (split; [done|]); (split; [done|]);
    rewrite Hstart, (Atoi_not_a_number _ Hnot); simpl; unfold add64.
  - rewrite Z.add_0_l. apply wrap_small, Atoi_int64.
  - rewrite Z.add_0_r. apply wrap_small, Atoi_int64.
Qed.

Lemma X15_malformed_time_counts_as_zero_witness :
  exists w, w ∈ ExtractWordTimings document /\ Word w = TrimSpace (str "again") /\
            StartTime w = fst (Atoi (str "3000")).
Proof.
  refine (proj1 (X15_malformed_time_counts_as_zero document
            (mkParagraph (str "soon") (str "") (str "") (str "") (str "")
               [ mkSentence (str "3000") (str "") (str "again") ])
            (mkSentence (str "3000") (str "") (str "again")) _ _ _) _).
  - right. right. left.
  - left.
  - vm_compute. congruence.
  - vm_compute. repeat split; congruence.
Defined.

(** X17: the batches CreateSubtitles cuts out of an extracted word list
    carry the ids of their positions: the slice from [lo] to [hi] holds
    the ids lo, ..., hi-1, so the [st_id] a service reads off the batch
    it is shown is an index into the whole list. *)
Theorem X17_batch_ids_are_indexes (timedText : TimedText) (lo hi : Z)
    (batch : list WordTiming) :
  Z.of_nat (length (ExtractWordTimings timedText)) <= int_max ->
  slice (ExtractWordTimings timedText) lo hi = Some batch ->
  ID <$> batch = seqZ lo (hi - lo).
Proof.
  intros Hlen Hslice.
  pose proof (slice_Some _ _ _ _ Hslice) as (Hlo & Hhi & Hbatch).
  rewrite slice_eval in Hslice by lia. injection Hslice as <-.
  apply list_eq. intros i. rewrite list_lookup_fmap, lookup_take, lookup_drop.
  destruct (decide (i < Z.to_nat (hi - lo))%nat) as [Hi|Hi].
  - rewrite lookup_seqZ_lt by lia.
    destruct (ExtractWordTimings timedText !! (Z.to_nat lo + i)%nat) as [w|] eqn:Hw.
    + simpl. rewrite (ExtractWordTimings_numbered _ _ _ Hw).
      rewrite wrap_small by (unfold int64, int_min, int_max in *; lia). f_equal; lia.
    + apply lookup_ge_None in Hw. lia.
  - by rewrite lookup_seqZ_ge by lia.
Qed.

Lemma X17_batch_ids_are_indexes_witness :
  Z.of_nat (length (ExtractWordTimings document)) <= int_max /\
  slice (ExtractWordTimings document) 1 3
    = Some [mkWordTiming 1 (str "world") 1500; mkWordTiming 2 (str "again") 3000] /\
  ID <$> [mkWordTiming 1 (str "world") 1500; mkWordTiming 2 (str "again") 3000]
  = seqZ 1 (3 - 1).
Proof.
  assert (Hlen : Z.of_nat (length (ExtractWordTimings document)) <= int_max)
    by (vm_compute; congruence).
  assert (Hslice : slice (ExtractWordTimings document) 1 3
    = Some [mkWordTiming 1 (str "world") 1500; mkWordTiming 2 (str "again") 3000])
    by reflexivity.
  split; [exact Hlen|]. split; [exact Hslice|].
  exact (X17_batch_ids_are_indexes document 1 3 _ Hlen Hslice).
Defined.

(** ** The file comment in front of the XML *)

Lemma Split_nonempty s sep : Split s sep <> [].
Proof. destruct s as [|c s]; simpl; [done|]. destruct (c =? sep); [done|]. by destruct (Split s sep). Qed.

(** Splitting at the line feeds and joining again gives the text back. *)
Lemma Join_Split s : Join (Split s 10) 10 = s.
Proof.
  induction s as [|c s IH]; [done|]. cbn [Split].
  pose proof (Split_nonempty s 10) as Hne.
  destruct (c =? 10) eqn:Hc.
  - apply Z.eqb_eq in Hc. subst c.
    destruct (Split s 10) as [|piece pieces]; [done|].
    change (Join ([] :: piece :: pieces) 10) with ([] ++ 10 :: Join (piece :: pieces) 10).
    by rewrite IH.
  - destruct (Split s 10) as [|piece pieces]; [done|].
    destruct pieces as [|piece' pieces]; simpl in *; by rewrite <- IH.
Qed.

Lemma Split_line_then l rest :
  is_line l -> Split (l ++ 10 :: rest) 10 = l :: Split rest 10.
Proof.
  induction 1 as [|c l Hc _ IH]; [done|].
  simpl app. cbn [Split]. rewrite (proj2 (Z.eqb_neq c 10)) by done. by rewrite IH.
Qed.

Lemma Split_lines_then lines rest :
  Forall is_line lines ->
  Split (Join (lines ++ [[]]) 10 ++ rest) 10 = lines ++ Split rest 10.
Proof.
  induction 1 as [|l lines Hl _ IH]; [done|].
  assert (Hjoin : Join ((l :: lines) ++ [[]]) 10 = l ++ 10 :: Join (lines ++ [[]]) 10).
  { simpl. by destruct (lines ++ [[]]) eqn:Hls; [destruct lines|]. }
  rewrite Hjoin, <- app_assoc. simpl app. rewrite Split_line_then by done.
  by rewrite IH.
Qed.

Lemma linesAfterComment_first pre line rest :
  Forall (fun l => Contains l (str "// filepath:") = false) pre ->
  Contains line (str "// filepath:") = true ->
  linesAfterComment (pre ++ line :: rest) = Some rest.
Proof.
  intros Hpre Hline. induction Hpre as [|l pre Hl _ IH]; simpl.
  - by rewrite Hline.
  - by rewrite Hl.
Qed.

(** X18: when a line of the file holds "// filepath:", ParseXMLFile
    parses what follows the first such line and nothing else: the lines
    before it and the line itself are dropped, wherever it stands, and
    the text after its line feed goes to the XML parser unchanged. *)
Theorem X18_text_after_comment_line_is_parsed
    (xmlUnmarshal : gostring -> option TimedText)
    (pre : list gostring) (line after : gostring) :
  Forall is_line pre -> is_line line ->
  Forall (fun l => Contains l (str "// filepath:") = false) pre ->
  Contains line (str "// filepath:") = true ->
  removeFilepathComment (Join (pre ++ [[]]) 10 ++ line ++ 10 :: after) = after /\
  ParseXMLFile xmlUnmarshal (Some (Join (pre ++ [[]]) 10 ++ line ++ 10 :: after))
  = match xmlUnmarshal after with
    | None => inl ErrParseXML
    | Some timedText => inr timedText
    end.
Proof.
  intros Hpre Hline Hclean Hmark.
  assert (Hrm : removeFilepathComment (Join (pre ++ [[]]) 10 ++ line ++ 10 :: after) = after).
  { unfold removeFilepathComment.
    rewrite Split_lines_then, Split_line_then by done.
    rewrite (linesAfterComment_first pre line (Split after 10)) by done.
    apply Join_Split. }
  split; [done|]. unfold ParseXMLFile. by rewrite Hrm.
Qed.

Lemma X18_text_after_comment_line_is_parsed_witness :
  removeFilepathComment
    (Join ([str "<?xml?>"] ++ [[]]) 10 ++ str "<!-- // filepath: a.srv3 -->"
     ++ 10 :: str "<timedtext/>")
  = str "<timedtext/>".
Proof.
  refine (proj1 (X18_text_after_comment_line_is_parsed (fun _ => None)
            [str "<?xml?>"] (str "<!-- // filepath: a.srv3 -->") (str "<timedtext/>")
            _ _ _ _)).
  - repeat constructor; vm_compute; congruence.
  - repeat constructor; vm_compute; congruence.
  - repeat constructor.
  - reflexivity.
Defined.

(** * The commands *)

(** ** Where the subtitles are written *)

Lemma HasPrefix_split s prefix :
  HasPrefix s prefix = true -> s = prefix ++ drop (length prefix) s.
Proof.
  revert s. induction prefix as [|p prefix IH]; intros s; [done|].
  destruct s as [|c s]; [done|]. simpl.
  intros [Hc Hrest]%andb_true_iff. apply Z.eqb_eq in Hc. subst c.
  f_equal. by apply IH.
Qed.

Lemma HasSuffix_app stem suffix : HasSuffix (stem ++ suffix) suffix = true.
Proof. unfold HasSuffix. rewrite rev_app_distr. apply HasPrefix_app. Qed.

Lemma HasSuffix_split s suffix :
  HasSuffix s suffix = true -> exists stem, s = stem ++ suffix.
Proof.
  unfold HasSuffix. intros H%HasPrefix_split.
  exists (rev (drop (length (rev suffix)) (rev s))).
  rewrite <- (rev_involutive s) at 1. rewrite H at 1.
  by rewrite rev_app_distr, rev_involutive.
Qed.

Lemma TrimSuffix_app stem suffix : TrimSuffix (stem ++ suffix) suffix = stem.
Proof.
  unfold TrimSuffix. rewrite HasSuffix_app, length_app.
  replace (length stem + length suffix - length suffix)%nat with (length stem) by lia.
  apply take_app_length.
Qed.

(** X19: the SRT path made from an input path. A path that ends in
    ".srv3" gets that ending replaced by ".srt"; any other path gets
    ".srt" appended; in both cases the result ends in ".srt" and is never
    the input path itself, so the input file is not written over. *)
Theorem X19_srt_path_replaces_extension (inputPath : gostring) :
  (forall stem, inputPath = stem ++ str ".srv3" -> srtPathFor inputPath = stem ++ str ".srt") /\
  (HasSuffix inputPath (str ".srv3") = false ->
   srtPathFor inputPath = inputPath ++ str ".srt") /\
  HasSuffix (srtPathFor inputPath) (str ".srt") = true /\
  srtPathFor inputPath <> inputPath.
Proof.
  unfold srtPathFor. repeat split.
  - intros stem ->. by rewrite TrimSuffix_app.
  - intros Hno. unfold TrimSuffix. by rewrite Hno.
  - apply HasSuffix_app.
  - destruct (HasSuffix inputPath (str ".srv3")) eqn:Hsuf.
    + apply HasSuffix_split in Hsuf as [stem ->]. rewrite TrimSuffix_app.
      intros Heq. apply (f_equal length) in Heq. rewrite !length_app in Heq.
      simpl in Heq. lia.
    + unfold TrimSuffix. rewrite Hsuf.
      intros Heq. apply (f_equal length) in Heq. rewrite length_app in Heq.
      simpl in Heq. lia.
Qed.

Lemma X19_srt_path_replaces_extension_witness :
  HasSuffix (str "out/clip.th.txt") (str ".srv3") = false /\
  srtPathFor (str "out/clip.th.txt") = str "out/clip.th.txt" ++ str ".srt".
Proof.
  assert (Hno : HasSuffix (str "out/clip.th.txt") (str ".srv3") = false) by reflexivity.
  split; [exact Hno|].
  exact (proj1 (proj2 (X19_srt_path_replaces_extension (str "out/clip.th.txt"))) Hno).
Defined.

(** X20: convert_srt checks the extension without regard to case but
    cuts it off only in lower case: with a case mapping that takes 'S',
    'R', 'V' to 's', 'r', 'v' and leaves '.' and '3' alone, an input
    named "....SRV3" is accepted, and without [-o] its output is the
    whole input name with ".srt" appended. *)
Theorem X20_upper_case_extension_is_kept (unicodeToLower : rune -> rune)
    (stem : gostring) :
  unicodeToLower <$> str ".SRV3" = str ".srv3" ->
  hasSrv3Extension unicodeToLower (stem ++ str ".SRV3") = true /\
  outputPathOf [] (stem ++ str ".SRV3") = stem ++ str ".SRV3.srt".
Proof.
  intros Hlower. split.
  - unfold hasSrv3Extension, ToLower. rewrite fmap_app, Hlower. apply HasSuffix_app.
  - unfold outputPathOf, srtPathFor, TrimSuffix.
    assert (Hno : HasSuffix (stem ++ str ".SRV3") (str ".srv3") = false).
    { unfold HasSuffix. rewrite rev_app_distr. reflexivity. }
    rewrite Hno, <- app_assoc. done.
Qed.

Lemma X20_upper_case_extension_is_kept_witness :
  asciiToLower <$> str ".SRV3" = str ".srv3" /\
  hasSrv3Extension asciiToLower (str "CLIP" ++ str ".SRV3") = true /\
  outputPathOf [] (str "CLIP" ++ str ".SRV3") = str "CLIP" ++ str ".SRV3.srt".
Proof.
  assert (Hlower : asciiToLower <$> str ".SRV3" = str ".srv3") by reflexivity.
  split; [exact Hlower|].
  exact (X20_upper_case_extension_is_kept asciiToLower (str "CLIP") Hlower).
Defined.

(** * The configuration *)

(** ** Reading the env file *)

Lemma Getenv_insert env key value key' :
  Getenv (<[key := value]> env) key' = if decide (key = key') then value else Getenv env key'.
Proof.
  unfold Getenv. destruct (decide (key = key')) as [->|Hne].
  - by rewrite lookup_insert_eq.
  - by rewrite lookup_insert_ne.
Qed.

(** A line leaves alone every variable that has a value. *)
Lemma loadEnvLine_keeps env line key :
  Getenv env key <> [] -> Getenv (loadEnvLine env line) key = Getenv env key.
Proof.
  intros Hset. unfold loadEnvLine. cbv zeta.
  destruct (_ || _); [done|].
  destruct (SplitN2 (TrimSpace line) 61) as [|k [|v [|? ?]]]; try done.
  destruct (Getenv env (TrimSpace k)) as [|c cs] eqn:Hk; [|done].
  unfold Setenv. destruct (_ && _); [|done]. simpl.
  rewrite Getenv_insert. destruct (decide (TrimSpace k = key)) as [<-|]; [|done].
  by rewrite Hk in Hset.
Qed.

Lemma loadEnvLines_keep lines env key :
  Getenv env key <> [] -> Getenv (fold_left loadEnvLine lines env) key = Getenv env key.
Proof.
  revert env. induction lines as [|line lines IH]; intros env Hset; [done|].
  cbn [fold_left]. rewrite IH; rewrite loadEnvLine_keeps; done.
Qed.

(** X21: the process environment wins over the env file: whatever the
    file holds (or when it cannot be read), a variable that has a
    non-empty value before LoadEnvFile has the same value after it. *)
Theorem X21_env_file_never_overrides (env : gmap (list Z) (list Z))
    (file : ReadResult) (key : gostring) :
  Getenv env key <> [] ->
  Getenv (fst (LoadEnvFile env file)) key = Getenv env key.
Proof.
  intros Hset. destruct file as [| |data]; try done. by apply loadEnvLines_keep.
Qed.

Lemma X21_env_file_never_overrides_witness :
  Getenv {[ str "GEMINI_MODEL" := str "pro" ]} (str "GEMINI_MODEL") <> [] /\
  Getenv (fst (LoadEnvFile {[ str "GEMINI_MODEL" := str "pro" ]}
                           (Data (str "GEMINI_MODEL=flash"))))
         (str "GEMINI_MODEL")
  = Getenv {[ str "GEMINI_MODEL" := str "pro" ]} (str "GEMINI_MODEL").
Proof.
  assert (Hset : Getenv {[ str "GEMINI_MODEL" := str "pro" ]} (str "GEMINI_MODEL") <> [])
    by (vm_compute; congruence).
  split; [exact Hset|].
  exact (X21_env_file_never_overrides _ (Data (str "GEMINI_MODEL=flash")) _ Hset).
Defined.

Lemma SplitN2_first_sep k v :
  Forall (fun c => c <> 61) k -> SplitN2 (k ++ 61 :: v) 61 = [k; v].
Proof.
  induction 1 as [|c k Hc _ IH]; [done|].
  simpl app. cbn [SplitN2]. rewrite (proj2 (Z.eqb_neq c 61)) by done. by rewrite IH.
Qed.

Lemma validEnvKey_spec key :
  validEnvKey key = true -> key <> [] /\ Forall (fun c => c <> 61) key.
Proof.
  unfold validEnvKey. intros [Hlen Hall]%andb_true_iff. split.
  - destruct key; [done|done].
  - apply Forall_forall. intros c Hc%list_elem_of_In.
    rewrite forallb_forall in Hall. specialize (Hall c Hc).
    apply negb_true_iff, orb_false_iff in Hall as [H61 _]. by apply Z.eqb_neq.
Qed.

(** A name and a value that are trimmed make a trimmed line. *)
Lemma trimmed_assignment k v :
  trimmed k -> k <> [] -> trimmed v -> trimmed (k ++ 61 :: v).
Proof.
  intros [Hkl _] Hne [_ Hvr]. destruct k as [|c k]; [done|]. split.
  - apply trimmed_head in Hkl. simpl. by rewrite Hkl.
  - rewrite rev_app_distr. cbn [rev]. rewrite <- app_assoc. simpl.
    change (rev v ++ [61] ++ rev k ++ [c]) with (rev v ++ 61 :: rev k ++ [c]).
    by rewrite trimLeftSpace_app_keep, Hvr.
Qed.

Lemma unquote_valid v : validEnvValue v = true -> validEnvValue (unquote v) = true.
Proof.
  unfold validEnvValue, unquote. intros Hv.
  destruct (1 <? _); [|done]. destruct (v !! 0%nat); [|done].
  destruct (v !! _); [|done]. destruct (_ && _); [|done].
  rewrite forallb_forall in Hv |- *. intros c Hc. apply Hv.
  rewrite <- (take_drop (length v - 1) v), in_app_iff. left.
  rewrite <- (take_drop 1 (take (length v - 1) v)), in_app_iff. by right.
Qed.

Lemma unquote_unfold (value : gostring) :
  unquote value =
  if 1 <? Z.of_nat (length value) then
    match value !! 0%nat, value !! (length value - 1)%nat with
    | Some first, Some final =>
        if ((first =? 34) || (first =? 39)) && (first =? final)
        then drop 1 (take (length value - 1) value)
        else value
    | _, _ => value
    end
  else value.
Proof. reflexivity. Qed.

(** A value between two equal quotes loses them. *)
Lemma unquote_quoted (q : rune) (body : gostring) :
  q = 34 \/ q = 39 -> unquote (q :: body ++ [q]) = body.
Proof.
  intros Hq. remember (q :: body ++ [q] : gostring) as value eqn:Hvalue.
  assert (Hlen : length value = S (S (length body)))
    by (subst value; simpl; rewrite length_app; simpl; lia).
  assert (Hfirst : value !! 0%nat = Some q) by (by subst value).
  assert (Hfinal : value !! (length value - 1)%nat = Some q).
  { rewrite Hlen. subst value.
    replace (S (S (length body)) - 1)%nat with (length (q :: body)) by (simpl; lia).
    by apply (list_lookup_middle (q :: body) [] q). }
  assert (Htake : drop 1 (take (length value - 1) value) = body).
  { rewrite Hlen. subst value.
    replace (S (S (length body)) - 1)%nat with (S (length body)) by lia.
    change (drop 1 (take (S (length body)) (q :: body ++ [q])))
      with (take (length body) (body ++ [q])).
    apply take_app_length. }
  assert (Hquote : ((q =? 34) || (q =? 39)) = true) by (destruct Hq as [-> | ->]; done).
  rewrite unquote_unfold. unfold gostring, rune in *.
  rewrite Hfirst, Hfinal, Htake, Hlen.
  rewrite (proj2 (Z.ltb_lt _ _)) by lia.
  by rewrite Hquote, Z.eqb_refl.
Qed.

(** X22: what an assignment line does. For a line [NAME=value] whose
    name is trimmed, valid for Setenv and not a comment, and whose value
    is trimmed and free of NUL, a variable that had no value gets the
    value with one pair of matching quotes removed; and a value between
    two double quotes, or between two single quotes, loses exactly
    those. *)
Theorem X22_assignment_sets_unset_variable (env : gmap (list Z) (list Z))
    (k v : gostring) :
  trimmed k -> validEnvKey k = true -> HasPrefix k (str "#") = false ->
  trimmed v -> validEnvValue v = true ->
  Getenv env k = [] ->
  Getenv (loadEnvLine env (k ++ 61 :: v)) k = unquote v /\
  (forall q body, q = 34 \/ q = 39 -> unquote (q :: body ++ [q]) = body).
Proof.
  intros Hk Hvalid Hcomment Hv Hval Hunset. split.
  - destruct (validEnvKey_spec k Hvalid) as [Hne Hno].
    unfold loadEnvLine. cbv zeta.
    rewrite (TrimSpace_trimmed (k ++ 61 :: v)) by (by apply trimmed_assignment).
    assert (Hlen : (Z.of_nat (length (k ++ 61 :: v)) =? 0) = false).
    { apply Z.eqb_neq. rewrite length_app. simpl. lia. }
    assert (Hhash : HasPrefix (k ++ 61 :: v) (str "#") = false).
    { destruct k as [|c k]; [done|]. exact Hcomment. }
    rewrite Hlen, Hhash, SplitN2_first_sep by done. cbn [orb].
    rewrite (TrimSpace_trimmed k), (TrimSpace_trimmed v), Hunset by done.
    unfold Setenv. rewrite Hvalid, unquote_valid by done. simpl.
    rewrite Getenv_insert. by destruct (decide (k = k)).
  - intros q body Hq. by apply unquote_quoted.
Qed.

Lemma X22_assignment_sets_unset_variable_witness :
  Getenv (loadEnvLine ∅ (str "GEMINI_MODEL" ++ 61 :: str "'pro 1'")) (str "GEMINI_MODEL")
  = unquote (str "'pro 1'").
Proof.
  refine (proj1 (X22_assignment_sets_unset_variable ∅ (str "GEMINI_MODEL")
                   (str "'pro 1'") _ _ _ _ _ _)).
  - split; reflexivity.
  - reflexivity.
  - reflexivity.
  - split; reflexivity.
  - reflexivity.
  - reflexivity.
Defined.

(** ** Loading the configuration *)

Section ConfigFacts.
Context {float : Type} (ParseFloat : gostring -> option float)
        (temperature_default : float).

(** The configuration Load returns when the key is set. *)
Lemma Load_Some (env : gmap (list Z) (list Z)) :
  Getenv env (str "GEMINI_API_KEY") <> [] ->
  exists cfg,
    Load float ParseFloat temperature_default env = Some cfg /\
    GeminiAPIKey float cfg = Getenv env (str "GEMINI_API_KEY") /\
    GeminiModel float cfg =
      match Getenv env (str "GEMINI_MODEL") with
      | [] => str "gemini-1.5-flash"
      | _ :: _ => Getenv env (str "GEMINI_MODEL")
      end /\
    GeminiMaxTokens float cfg =
      match Getenv env (str "GEMINI_MAX_TOKENS") with
      | [] => 8192
      | _ :: _ =>
          match Atoi (Getenv env (str "GEMINI_MAX_TOKENS")) with
          | (mt, None) => mt
          | (_, Some _) => 8192
          end
      end /\
    DebugMode float cfg = false /\ DebugDir float cfg = [].
Proof.
  intros Hkey. unfold Load.
  destruct (Getenv env (str "GEMINI_API_KEY")) as [|c key]; [done|].
  destruct (Getenv env (str "GEMINI_MODEL")) as [|? ?];
    destruct (Getenv env (str "GEMINI_TEMPERATURE")) as [|? ?];
    destruct (Getenv env (str "GEMINI_MAX_TOKENS")) as [|? ?];
    try destruct (ParseFloat _); try destruct (Atoi _) as [mt [err|]];
    eexists; (split; [reflexivity|]); done.
Qed.

(** X23: the key decides, and the process environment comes first.
    loadConfig fails exactly when GEMINI_API_KEY is empty once the env
    file has been read; with a key in the process environment it
    succeeds with that key whatever the file holds, and a GEMINI_MODEL of
    the process environment is the model of the configuration. *)
Theorem X23_process_environment_first (env : gmap (list Z) (list Z))
    (file : ReadResult) :
  (loadConfig float ParseFloat temperature_default env file = None <->
   Getenv (fst (LoadEnvFile env file)) (str "GEMINI_API_KEY") = []) /\
  (Getenv env (str "GEMINI_API_KEY") <> [] ->
   exists cfg,
     loadConfig float ParseFloat temperature_default env file = Some cfg /\
     GeminiAPIKey float cfg = Getenv env (str "GEMINI_API_KEY") /\
     (Getenv env (str "GEMINI_MODEL") <> [] ->
      GeminiModel float cfg = Getenv env (str "GEMINI_MODEL"))).
Proof.
  split.
  - unfold loadConfig. split.
    + intros Hnone.
      destruct (Getenv (fst (LoadEnvFile env file)) (str "GEMINI_API_KEY")) eqn:Hk; [done|].
      destruct (Load_Some (fst (LoadEnvFile env file))) as (cfg & Hcfg & _);
        [by rewrite Hk|congruence].
    + intros Hk. unfold Load. by rewrite Hk.
  - intros Hkey. unfold loadConfig.
    assert (Hsame : forall key, Getenv env key <> [] ->
              Getenv (fst (LoadEnvFile env file)) key = Getenv env key).
    { intros key Hset. destruct file as [| |data]; try done. by apply loadEnvLines_keep. }
    destruct (Load_Some (fst (LoadEnvFile env file))) as (cfg & Hcfg & Hk & Hm & _).
    { by rewrite Hsame. }
    exists cfg. split; [done|]. split; [by rewrite Hk, Hsame|].
    intros Hmodel. rewrite Hm, (Hsame _ Hmodel).
    by destruct (Getenv env (str "GEMINI_MODEL")).
Qed.

(** X24: GEMINI_MAX_TOKENS is taken as Atoi reads it and not checked
    further: with the key set, a decimal numeral that fits an [int] (0
    included) becomes the token limit, and a value that is no number
    (empty, unset, or starting with neither digit nor sign) leaves the
    limit at 8192 without any error. *)
Theorem X24_max_tokens_as_read (env : gmap (list Z) (list Z)) :
  Getenv env (str "GEMINI_API_KEY") <> [] ->
  (forall ds, digits ds -> numeral_value ds <= int_max ->
     Getenv env (str "GEMINI_MAX_TOKENS") = numeral ds ->
     exists cfg, Load float ParseFloat temperature_default env = Some cfg /\
                 GeminiMaxTokens float cfg = numeral_value ds) /\
  (not_a_number (Getenv env (str "GEMINI_MAX_TOKENS")) ->
   exists cfg, Load float ParseFloat temperature_default env = Some cfg /\
               GeminiMaxTokens float cfg = 8192).
Proof.
  intros Hkey. destruct (Load_Some env Hkey) as (cfg & Hcfg & _ & _ & Htok & _).
  split.
  - intros ds Hds Hmax Hval. exists cfg. split; [done|].
    rewrite Htok, Hval, Atoi_numeral by done.
    destruct (numeral_head ds Hds) as (c & s & -> & _). done.
  - intros Hnot. exists cfg. split; [done|].
    rewrite Htok, (Atoi_not_a_number _ Hnot).
    by destruct (Getenv env (str "GEMINI_MAX_TOKENS")).
Qed.

(** X25: Load never reads DEBUG_MODE or DEBUG_DIR (the struct tags of
    Config are not used): in every configuration it returns, DebugMode is
    false and DebugDir is empty, whatever the environment holds. *)
Theorem X25_debug_fields_not_loaded (env : gmap (list Z) (list Z)) (cfg : Config float) :
  Load float ParseFloat temperature_default env = Some cfg ->
  DebugMode float cfg = false /\ DebugDir float cfg = [].
Proof.
  intros Hload.
  destruct (Getenv env (str "GEMINI_API_KEY")) as [|c key] eqn:Hkey.
  { unfold Load in Hload. by rewrite Hkey in Hload. }
  destruct (Load_Some env) as (cfg' & Hcfg & _ & _ & _ & Hd); [by rewrite Hkey|].
  rewrite Hload in Hcfg. by injection Hcfg as <-.
Qed.

Lemma Split_line l : is_line l -> Split l 10 = [l].
Proof.
  induction 1 as [|c l Hc _ IH]; [done|].
  cbn [Split]. by rewrite (proj2 (Z.eqb_neq c 10)), IH by done.
Qed.

(** X26: a key that only the env file gives is used: when the process
    environment has no GEMINI_API_KEY and the file is the one line
    GEMINI_API_KEY=value (value trimmed, without NUL and line feed, not
    empty once unquoted), loadConfig succeeds with the unquoted value as
    key. *)
Theorem X26_key_from_env_file (env : gmap (list Z) (list Z)) (v : gostring) :
  Getenv env (str "GEMINI_API_KEY") = [] ->
  trimmed v -> validEnvValue v = true -> is_line v -> unquote v <> [] ->
  exists cfg,
    loadConfig float ParseFloat temperature_default env
      (Data (str "GEMINI_API_KEY" ++ 61 :: v)) = Some cfg /\
    GeminiAPIKey float cfg = unquote v.
Proof.
  intros Hunset Hv Hval Hline Hne.
  assert (Hset : Getenv (fst (LoadEnvFile env (Data (str "GEMINI_API_KEY" ++ 61 :: v))))
                        (str "GEMINI_API_KEY") = unquote v).
  { cbn [LoadEnvFile fst]. rewrite Split_line.
    2: { apply Forall_app. split; [repeat constructor; vm_compute; congruence|].
         by constructor. }
    cbn [fold_left].
    assert (Hk : trimmed (str "GEMINI_API_KEY")) by (by split).
    pose proof (trimmed_assignment (str "GEMINI_API_KEY") v Hk ltac:(done) Hv) as Htrim.
    unfold loadEnvLine. cbv zeta. rewrite (TrimSpace_trimmed _ Htrim).
    assert (Hlen : (Z.of_nat (length (str "GEMINI_API_KEY" ++ 61 :: v)) =? 0) = false).
    { apply Z.eqb_neq. rewrite length_app. simpl. lia. }
    rewrite Hlen. change (HasPrefix (str "GEMINI_API_KEY" ++ 61 :: v) (str "#")) with false.
    cbn [orb]. rewrite SplitN2_first_sep by (repeat constructor; vm_compute; congruence).
    rewrite (TrimSpace_trimmed _ Hk), (TrimSpace_trimmed v Hv), Hunset.
    unfold Setenv. rewrite (unquote_valid v Hval).
    change (validEnvKey (str "GEMINI_API_KEY")) with true. simpl.
    rewrite Getenv_insert. by destruct (decide _). }
  unfold loadConfig.
  destruct (Load_Some (fst (LoadEnvFile env (Data (str "GEMINI_API_KEY" ++ 61 :: v)))))
    as (cfg & Hcfg & Hk & _); [by rewrite Hset|].
  exists cfg. split; [done|]. by rewrite Hk.
Qed.
End ConfigFacts.

Lemma X23_process_environment_first_witness :
  Getenv {[ str "GEMINI_API_KEY" := str "k1" ]} (str "GEMINI_API_KEY") <> [] /\
  exists cfg,
    loadConfig unit (fun _ => None) tt {[ str "GEMINI_API_KEY" := str "k1" ]}
      (Data (str "GEMINI_API_KEY=k2")) = Some cfg /\
    GeminiAPIKey unit cfg = str "k1".
Proof.
  assert (Hset : Getenv {[ str "GEMINI_API_KEY" := str "k1" ]} (str "GEMINI_API_KEY") <> [])
    by (vm_compute; congruence).
  split; [exact Hset|].
  destruct (proj2 (X23_process_environment_first (fun _ : gostring => @None unit) tt
                     {[ str "GEMINI_API_KEY" := str "k1" ]}
                     (Data (str "GEMINI_API_KEY=k2"))) Hset)
    as (cfg & Hcfg & Hkey & _).
  exists cfg. split; [exact Hcfg|]. rewrite Hkey. reflexivity.
Defined.

Lemma X24_max_tokens_as_read_witness :
  exists cfg,
    Load unit (fun _ => None) tt
      {[ str "GEMINI_API_KEY" := str "k1"; str "GEMINI_MAX_TOKENS" := str "0" ]} = Some cfg /\
    GeminiMaxTokens unit cfg = 0.
Proof.
  assert (Hset : Getenv {[ str "GEMINI_API_KEY" := str "k1";
                           str "GEMINI_MAX_TOKENS" := str "0" ]} (str "GEMINI_API_KEY") <> [])
    by (vm_compute; congruence).
  refine (proj1 (X24_max_tokens_as_read (fun _ : gostring => @None unit) tt _ Hset) [0] _ _ _).
  - split; [congruence|]. apply List.Forall_cons; [lia|apply List.Forall_nil].
  - vm_compute; congruence.
  - reflexivity.
Defined.

Lemma X25_debug_fields_not_loaded_witness :
  exists cfg,
    Load unit (fun _ => None) tt
      {[ str "GEMINI_API_KEY" := str "k1"; str "DEBUG_MODE" := str "true" ]} = Some cfg /\
    DebugMode unit cfg = false /\ DebugDir unit cfg = [].
Proof.
  eexists. split; [reflexivity|].
  apply (X25_debug_fields_not_loaded (fun _ : gostring => @None unit) tt
           {[ str "GEMINI_API_KEY" := str "k1"; str "DEBUG_MODE" := str "true" ]}).
  reflexivity.
Defined.

Lemma X26_key_from_env_file_witness :
  exists cfg,
    loadConfig unit (fun _ => None) tt ∅ (Data (str "GEMINI_API_KEY" ++ 61 :: str "'k2'"))
    = Some cfg /\
    GeminiAPIKey unit cfg = unquote (str "'k2'").
Proof.
  refine (X26_key_from_env_file (fun _ : gostring => @None unit) tt ∅ (str "'k2'") _ _ _ _ _).
  - reflexivity.
  - split; reflexivity.
  - reflexivity.
  - repeat constructor; vm_compute; congruence.
  - vm_compute; congruence.
Defined.
